(** * tfjs-core [util.ts]: flattening, typed coercion and the text codec

    A shallow embedding of [tfjs-core/src/util.ts] and the properties its
    specification states about it.

    - JavaScript values are an inductive type; numbers are IEEE binary64
      ([PrimFloat.float]), and the conversions of the language that the code
      relies on ([ToInt32], [Math.round], [Math.fround]) are computed on the
      sign, mantissa and exponent of a number.
    - Typed arrays live in a store and are denoted by their location, so that
      "the same buffer" is a statement about locations and "no allocation,
      no write" a statement about the store.  Ordinary arrays and objects are
      only read by this code and are trees.
    - An exception is an [outcome].
    - The collaborators that the file imports ([env()], the platform,
      [util_base]) are the fields of [Env].
    - Arrays are lists of any length and indices are integers: the limit of
      [2^32 - 1] elements of a JavaScript array, and memory, are not
      modelled.  Inherited and non-enumerable properties are not modelled
      either. *)

From Stdlib Require Import ZArith String Ascii Floats DecimalString DecimalN DecimalFacts Lia.
From stdpp Require Import base option list strings.

Local Open Scope string_scope.
Local Open Scope list_scope.
Local Open Scope Z_scope.
Set Warnings "-inexact-float".

(** ** Numbers *)

Module Num.

(** The integer [z] as a number, rounded to nearest-even where it has more
    than 53 significant bits. *)
Definition of_Z (z : Z) : float :=
  SF2Prim (binary_normalize prec emax z 0 false).

(** The value [(-1)^s * m * 2^e] with its fraction dropped. *)
Definition truncate (s : bool) (m : positive) (e : Z) : Z :=
  let magnitude :=
    if 0 <=? e then Z.shiftl (Z.pos m) e else Z.shiftr (Z.pos m) (- e) in
  if s then - magnitude else magnitude.

(** Two's complement reading of the low 32 bits. *)
Definition wrap32 (int : Z) : Z :=
  let int32bit := int mod 2 ^ 32 in
  if 2 ^ 31 <=? int32bit then int32bit - 2 ^ 32 else int32bit.

(** ECMAScript [ToInt32], the conversion an [Int32Array] applies to the
    numbers stored into it. *)
Definition ToInt32 (x : float) : Z :=
  match Prim2SF x with
  | S754_finite s m e => wrap32 (truncate s m e)
  | _ => 0
  end.

(** The integer nearest to [(-1)^s * m * 2^e], the greater one of two that
    are equally near: [floor(x + 1/2)]. *)
Definition nearest (s : bool) (m : positive) (e : Z) : Z :=
  let twice := 2 * (if s then Z.neg m else Z.pos m) in
  Z.shiftr (twice + 2 ^ (- e)) (1 - e).

(** ECMAScript [Math.round]: the integer nearest to [x], ties towards
    [+Infinity]; NaN, infinities and integers are returned as they are, and
    a result of zero keeps the sign of [x]. *)
Definition Math_round (x : float) : float :=
  match Prim2SF x with
  | S754_finite s m e =>
      if 0 <=? e then x
      else
        let n := nearest s m e in
        if n =? 0 then (if s then neg_zero else zero) else of_Z n
  | _ => x
  end.

(** [Math.fround]: the binary32 value nearest to [x], the conversion a
    [Float32Array] applies. *)
Definition fround (x : float) : float :=
  match Prim2SF x with
  | S754_finite s m e => SF2Prim (binary_round 24 128 s m e)
  | _ => x
  end.

(** [x !== 0] on numbers. *)
Definition not_strict_zero (x : float) : bool := negb (PrimFloat.eqb x 0).

(** [x] is an integer (NaN and the infinities are not). *)
Definition is_integer (x : float) : bool :=
  match Prim2SF x with
  | S754_zero _ => true
  | S754_finite s m e => (0 <=? e) || (Z.pos m mod 2 ^ (- e) =? 0)
  | _ => false
  end.

End Num.

(** ** Regular expressions

    The fragment that the key pattern of [flatten] is written in; [test]
    decides whether the whole string is in the language, which is what
    [RegExp.prototype.test] does for a pattern enclosed in [^] and [$]. *)

Module RegExp.

Inductive regex : Type :=
| Void
| Eps
| Range (lo hi : ascii)
| Cat (r1 r2 : regex)
| Alt (r1 r2 : regex)
| Star (r : regex).

Definition Chr (c : ascii) : regex := Range c c.
Definition Plus (r : regex) : regex := Cat r (Star r).

Definition in_range (lo hi c : ascii) : bool :=
  ((nat_of_ascii lo <=? nat_of_ascii c) && (nat_of_ascii c <=? nat_of_ascii hi))%nat.

Fixpoint nullable (r : regex) : bool :=
  match r with
  | Void => false
  | Eps => true
  | Range _ _ => false
  | Cat r1 r2 => nullable r1 && nullable r2
  | Alt r1 r2 => nullable r1 || nullable r2
  | Star _ => true
  end.

Fixpoint deriv (c : ascii) (r : regex) : regex :=
  match r with
  | Void => Void
  | Eps => Void
  | Range lo hi => if in_range lo hi c then Eps else Void
  | Cat r1 r2 =>
      if nullable r1 then Alt (Cat (deriv c r1) r2) (deriv c r2)
      else Cat (deriv c r1) r2
  | Alt r1 r2 => Alt (deriv c r1) (deriv c r2)
  | Star r1 => Cat (deriv c r1) (Star r1)
  end.

Fixpoint test (r : regex) (s : string) : bool :=
  match s with
  | EmptyString => nullable r
  | String c s' => test (deriv c r) s'
  end.

(** The language of a regular expression. *)
Inductive Matches : regex -> string -> Prop :=
| MEps : Matches Eps ""
| MRange lo hi c : in_range lo hi c = true -> Matches (Range lo hi) (String c "")
| MCat r1 r2 s1 s2 : Matches r1 s1 -> Matches r2 s2 -> Matches (Cat r1 r2) (s1 +:+ s2)
| MAltL r1 r2 s : Matches r1 s -> Matches (Alt r1 r2) s
| MAltR r1 r2 s : Matches r2 s -> Matches (Alt r1 r2) s
| MStar0 r : Matches (Star r) ""
| MStarS r c s1 s2 :
    Matches r (String c s1) -> Matches (Star r) s2 ->
    Matches (Star r) (String c s1 +:+ s2).

End RegExp.

(** ** Values and the typed-array store *)

(** The typed arrays of [TypedArray]; the platform's [isTypedArray] holds of
    exactly these. *)
Inductive TypedArray : Type :=
| Float32Array (data : list float)
| Int32Array (data : list Z)
| Uint8Array (data : list Z)
| Uint8ClampedArray (data : list Z).

(** A typed array is denoted by its location in the store; locations are
    handed out in order, and nothing is ever freed. *)
Abbreviation heap := (list TypedArray).

(** JavaScript values, as far as [util.ts] tells them apart.  [PromiseV] is a
    value for which [base.isPromise] holds.  An [Array] lists its elements
    (a hole reads as [Undefined]); an [Object] lists its own enumerable
    properties in the order of [Object.keys]. *)
#[local] Unset Elimination Schemes.
Inductive value : Type :=
| Undefined
| Null
| Bool (b : bool)
| Number (x : float)
| Str (s : string)
| PromiseV (id : nat)
| Array (elems : list value)
| TypedRef (l : nat)
| Object (props : list (string * value)).
#[local] Set Elimination Schemes.

Inductive JSError : Type :=
| Error (message : string)
| RangeError (message : string)
| TypeError (message : string).

Inductive outcome (A : Type) : Type :=
| Ok (a : A)
| Throw (e : JSError).
Arguments Ok {A} a.
Arguments Throw {A} e.

(** The elements of a typed array, as the numbers that indexing yields. *)
Definition typed_numbers (t : TypedArray) : list float :=
  match t with
  | Float32Array data => data
  | Int32Array data | Uint8Array data | Uint8ClampedArray data => Num.of_Z <$> data
  end.

Definition typed_values (h : heap) (l : nat) : list value :=
  match h !! l with
  | Some t => Number <$> typed_numbers t
  | None => []
  end.

(** [new T(...)]: the new array gets the next location. *)
Definition alloc (h : heap) (t : TypedArray) : heap * value :=
  (h ++ [t], TypedRef (length h)).

(** ** Property access on objects *)

(** [ToString(i)] for an array index: canonical decimal digits. *)
Definition index_key (i : Z) : string :=
  NilZero.string_of_uint (N.to_uint (Z.to_N i)).

(** [Number(key)] for a key made of decimal digits. *)
Definition Number_of_key (key : string) : Z :=
  match NilZero.uint_of_string key with
  | Some d => Z.of_N (N.of_uint d)
  | None => 0
  end.

(** [obj[key]], continuation style: [found] receives the value of the first
    property named [key], [missing] is the result when there is none. *)
Definition with_prop {A : Type} (key : string) (found : value -> A) (missing : A)
  : list (string * value) -> A :=
  fix go props :=
    match props with
    | [] => missing
    | (k, v) :: rest => if String.eqb k key then found v else go rest
    end.

(** [obj[key]]; a missing property reads as [undefined]. *)
Definition prop_get (props : list (string * value)) (key : string) : value :=
  with_prop key (fun v => v) Undefined props.

Definition Object_keys (props : list (string * value)) : list string := props.*1.

(** The own enumerable properties of a value; only objects have any here. *)
Definition own_props (a : value) : list (string * value) :=
  match a with
  | Object props => props
  | _ => []
  end.

(** ** The tests on values *)

Definition typeof (a : value) : string :=
  match a with
  | Undefined => "undefined"
  | Bool _ => "boolean"
  | Number _ => "number"
  | Str _ => "string"
  | Null | PromiseV _ | Array _ | TypedRef _ | Object _ => "object"
  end.

(** [base.isPromise] *)
Definition isPromise (a : value) : bool :=
  match a with
  | PromiseV _ => true
  | _ => false
  end.

(** [a == null] *)
Definition eq_null (a : value) : bool :=
  match a with
  | Undefined | Null => true
  | _ => false
  end.

Definition isTypedArray (a : value) : bool :=
  match a with
  | TypedRef _ => true
  | _ => false
  end.

Definition Array_isArray (a : value) : bool :=
  match a with
  | Array _ => true
  | _ => false
  end.

(** The elements of an array or typed array, [None] for any other value. *)
Definition elements (h : heap) (a : value) : option (list value) :=
  match a with
  | Array elems => Some elems
  | TypedRef l => Some (typed_values h l)
  | _ => None
  end.

(** [a[i]] and [a.length] for an array or typed array [a]. *)
Definition index (h : heap) (a : value) (i : nat) : value :=
  match elements h a with
  | Some vs => default Undefined (vs !! i)
  | None => Undefined
  end.

Definition length_of (h : heap) (a : value) : nat :=
  match elements h a with
  | Some vs => length vs
  | None => 0
  end.

(** ** flatten *)

(** [/^([1-9]+[0-9]*|0)$/] *)
Definition INDEX_KEY : RegExp.regex :=
  RegExp.Alt
    (RegExp.Cat (RegExp.Plus (RegExp.Range "1" "9")) (RegExp.Star (RegExp.Range "0" "9")))
    (RegExp.Chr "0").

(** The first loop of the last branch of [flatten]. *)
Definition maxIndex_of (keys : list string) : Z :=
  foldl (fun maxIndex key =>
           if RegExp.test INDEX_KEY key then Z.max maxIndex (Number_of_key key)
           else maxIndex)
        (-1) keys.

(** [flatten(arr, result, skipTypedArray)].  [result] is [None] when the
    argument is omitted or nullish.  The array that [result] denotes is
    threaded through the calls; the returned list is its final content.
    An element of a typed array is a number, so the call on it is the push
    of the first branch, and the call on [arr[i]] of the last branch is under
    [with_prop]: both stand under the recursion as the source writes them in
    [flatten_unfold]. *)
Fixpoint flatten (h : heap) (arr : value) (result : option (list value))
    (skipTypedArray : bool) {struct arr} : list value :=
  let result := default [] result in
  match arr with
  | Bool _ | Number _ | Str _ | PromiseV _ | Undefined | Null => result ++ [arr]
  | TypedRef l =>
      if skipTypedArray then result ++ [arr]
      else foldl (fun result x => result ++ [x]) result (typed_values h l)
  | Array elems =>
      foldl (fun result x => flatten h x (Some result) skipTypedArray) result elems
  | Object props =>
      let maxIndex := maxIndex_of (Object_keys props) in
      foldl (fun result i =>
               with_prop (index_key i)
                 (fun v => flatten h v (Some result) skipTypedArray)
                 (result ++ [Undefined]) props)
            result (seqZ 0 (maxIndex + 1))
  end.

(** ** The collaborators

    What [util.ts] imports and does not define: the [DEBUG] flag of [env()],
    [checkConversionForErrors] of [util_base], the platform's text encoder
    and decoder, and the parts of the language that the functions reach only
    with arguments outside [number[]] and [TypedArray]: [ToNumber] of strings
    and objects, and the typed-array constructors (for ['bool'], the rest of
    the branch) on an [a] that is neither an array nor a typed array. *)
Record Env : Type := {
  DEBUG : bool;
  checkConversionForErrors : heap -> value -> option string -> option JSError;
  platform_encode : heap -> value -> value -> heap * outcome value;
  platform_decode : heap -> value -> value -> outcome value;
  ToNumber_host : value -> float;
  construct_host : heap -> value -> option string -> heap * outcome value
}.

(** ** Coercions of the language *)

Definition ToNumber (E : Env) (v : value) : float :=
  match v with
  | Undefined => nan
  | Null => 0
  | Bool b => if b then 1 else 0
  | Number x => x
  | _ => ToNumber_host E v
  end.

Definition ToBoolean (v : value) : bool :=
  match v with
  | Undefined | Null => false
  | Bool b => b
  | Number x => negb (is_nan x || is_zero x)
  | Str s => negb (String.eqb s "")
  | _ => true
  end.

(** A parameter with a default value: the default replaces [undefined]. *)
Definition default_param (arg dflt : value) : value :=
  match arg with
  | Undefined => dflt
  | _ => arg
  end.

(** [x || y] *)
Definition or_else (x y : value) : value := if ToBoolean x then x else y.

(** [dtype === name]; [dtype] is [None] when it is [null] or [undefined]. *)
Definition dtype_is (dtype : option string) (name : string) : bool :=
  match dtype with
  | Some s => String.eqb s name
  | None => false
  end.

(** [dtype == null] *)
Definition is_nullish (dtype : option string) : bool :=
  match dtype with
  | Some _ => false
  | None => true
  end.

(** [bool[i] = b] on the [Uint8Array] at [l]. *)
Definition store_byte (h : heap) (l i : nat) (b : Z) : heap :=
  match h !! l with
  | Some (Uint8Array data) => <[l := Uint8Array (<[i := b]> data)]> h
  | _ => h
  end.

(** ** The text codec *)

Definition encodeString (E : Env) (h : heap) (s encoding : value) : heap * outcome value :=
  let encoding := default_param encoding (Str "utf-8") in
  let encoding := or_else encoding (Str "utf-8") in
  platform_encode E h s encoding.

Definition decodeString (E : Env) (h : heap) (bytes encoding : value) : outcome value :=
  let encoding := default_param encoding (Str "utf-8") in
  let encoding := or_else encoding (Str "utf-8") in
  platform_decode E h bytes encoding.

(** ** toTypedArray *)

Definition instanceof_Float32Array (h : heap) (a : value) : bool :=
  match a with
  | TypedRef l => match h !! l with Some (Float32Array _) => true | _ => false end
  | _ => false
  end.

Definition instanceof_Int32Array (h : heap) (a : value) : bool :=
  match a with
  | TypedRef l => match h !! l with Some (Int32Array _) => true | _ => false end
  | _ => false
  end.

Definition instanceof_Uint8Array (h : heap) (a : value) : bool :=
  match a with
  | TypedRef l => match h !! l with Some (Uint8Array _) => true | _ => false end
  | _ => false
  end.

Definition noConversionNeeded (h : heap) (a : value) (dtype : option string) : bool :=
  (instanceof_Float32Array h a && dtype_is dtype "float32") ||
  (instanceof_Int32Array h a && dtype_is dtype "int32") ||
  (instanceof_Uint8Array h a && dtype_is dtype "bool").

(** [new Float32Array(a)] *)
Definition new_Float32Array (E : Env) (h : heap) (a : value) (dtype : option string)
  : heap * outcome value :=
  match elements h a with
  | Some vs =>
      let '(h', r) := alloc h (Float32Array ((fun v => Num.fround (ToNumber E v)) <$> vs)) in
      (h', Ok r)
  | None => construct_host E h a dtype
  end.

(** [new Int32Array(a)] *)
Definition new_Int32Array (E : Env) (h : heap) (a : value) (dtype : option string)
  : heap * outcome value :=
  match elements h a with
  | Some vs =>
      let '(h', r) := alloc h (Int32Array ((fun v => Num.ToInt32 (ToNumber E v)) <$> vs)) in
      (h', Ok r)
  | None => construct_host E h a dtype
  end.

(** The loop of the ['bool'] branch; [bool] is at location [l] and has
    [length] elements. *)
Definition fill_bool (E : Env) (a : value) (l length : nat) (h : heap) : heap :=
  foldl (fun h i =>
           if Num.not_strict_zero (Num.Math_round (ToNumber E (index h a i)))
           then store_byte h l i 1
           else h)
        h (seq 0 length).

Definition toTypedArray (E : Env) (h : heap) (a : value) (dtype : option string)
  : heap * outcome value :=
  if dtype_is dtype "string" then
    (h, Throw (Error "Cannot convert a string[] to a TypedArray"))
  else
    let a := if Array_isArray a then Array (flatten h a None false) else a in
    match (if DEBUG E then checkConversionForErrors E h a dtype else None) with
    | Some e => (h, Throw e)
    | None =>
        if noConversionNeeded h a dtype then (h, Ok a)
        else if is_nullish dtype || dtype_is dtype "float32" || dtype_is dtype "complex64" then
          new_Float32Array E h a dtype
        else if dtype_is dtype "int32" then
          new_Int32Array E h a dtype
        else if dtype_is dtype "bool" then
          match elements h a with
          | Some vs =>
              let '(h1, bool) := alloc h (Uint8Array (replicate (length vs) 0)) in
              (fill_bool E a (length h) (length vs) h1, Ok bool)
          | None => construct_host E h a dtype
          end
        else
          (h, Throw (Error ("Unknown data type " +:+ default "" dtype)))
    end.

Definition createScalarValue (E : Env) (h : heap) (val : value) (dtype : option string)
  : heap * outcome value :=
  if dtype_is dtype "string" then encodeString E h val Undefined
  else toTypedArray E h (Array [val]) dtype.

(** ** The debug validator *)

(** Modelled from the spec: [base.checkConversionForErrors] is defined in
    [util_base.ts], which is not among the sources.  The specification says
    that it scans every value of the sequence and fails with a
    [RangeError]-kind condition if a value cannot be faithfully represented in
    the target numeric type: a non-integer value destined for an integer
    type, or a magnitude outside the representable range.  Here: for
    ['int32'], a value that is not an integer of 32 bits; for the 32-bit
    float types, a finite value beyond the greatest 32-bit float; ['bool'] is
    not a numeric type and has no findings. *)
Definition representable (dtype : option string) (x : float) : bool :=
  if dtype_is dtype "int32" then
    Num.is_integer x &&
    match Prim2SF x with
    | S754_finite s m e =>
        (- 2 ^ 31 <=? Num.truncate s m e) && (Num.truncate s m e <? 2 ^ 31)
    | _ => true
    end
  else if dtype_is dtype "bool" then true
  else is_infinity x || negb (is_infinity (Num.fround x)).

(** The specification speaks of numeric sequences; a value that is not a
    number has no finding. *)
Definition has_finding (dtype : option string) (v : value) : bool :=
  match v with
  | Number x => negb (representable dtype x)
  | _ => false
  end.

Definition spec_checkConversionForErrors
    (h : heap) (vals : value) (dtype : option string) : option JSError :=
  match elements h vals with
  | Some vs =>
      if existsb (has_finding dtype) vs
      then Some (RangeError "value cannot be represented in the target type")
      else None
  | None => None
  end.

(** ** What the specification says, in its own terms *)

(** Trees without array-like objects. *)
Fixpoint array_like_free (v : value) : bool :=
  match v with
  | Array elems => forallb array_like_free elems
  | Object _ => false
  | _ => true
  end.

(** The leaves of a tree of sequences, depth first and left to right.  A typed
    buffer is one leaf when [skipTypedBuffers] holds and the sequence of its
    elements otherwise. *)
Fixpoint leaves (h : heap) (skipTypedBuffers : bool) (v : value) : list value :=
  match v with
  | Array elems => concat (map (leaves h skipTypedBuffers) elems)
  | TypedRef l => if skipTypedBuffers then [v] else typed_values h l
  | Object _ => []
  | _ => [v]
  end.

Definition is_digit (c : ascii) : bool := RegExp.in_range "0" "9" c.

(** Decimal digits of a non-negative integer without leading zeros. *)
Definition canonical_index (key : string) : bool :=
  match key with
  | EmptyString => false
  | String c rest =>
      if Ascii.eqb c "0" then String.eqb rest ""
      else is_digit c && forallb is_digit (list_ascii_of_string rest)
  end.

(** The greatest key among those that match the pattern, [-1] if none does. *)
Definition max_matching_key (props : list (string * value)) : Z :=
  foldr Z.max (-1) (Number_of_key <$> List.filter canonical_index (Object_keys props)).

(** The encoding that the codec is specified to hand to the platform. *)
Definition resolved_encoding (encoding : value) : value :=
  if ToBoolean encoding then encoding else Str "utf-8".

(** Modelled from the spec: the platform's [encode] and [decode] are not
    among the sources.  The specification says that [encode] returns the
    bytes for a text under a named encoding and [decode] the text for bytes
    under it; a text is valid for an encoding when the platform encodes it,
    and decoding what was encoded gives the text back. *)
Definition valid_text (E : Env) (h : heap) (s encoding : value) : Prop :=
  exists h' bytes, platform_encode E h s encoding = (h', Ok bytes).

Definition platform_round_trip (E : Env) (encoding : value) : Prop :=
  forall h s h' bytes,
    platform_encode E h s encoding = (h', Ok bytes) ->
    platform_decode E h' bytes encoding = Ok s.

(** The element type of a buffer matches the target type. *)
Definition matches_dtype (t : TypedArray) (dtype : option string) : Prop :=
  match t with
  | Float32Array _ => dtype = Some "float32"
  | Int32Array _ => dtype = Some "int32"
  | Uint8Array _ => dtype = Some "bool"
  | Uint8ClampedArray _ => False
  end.

(** Validation is skipped, or it has no findings. *)
Definition validation_passes (E : Env) (h : heap) (a : value) (dtype : option string) : Prop :=
  DEBUG E = false \/ checkConversionForErrors E h a dtype = None.

(** The ['bool'] byte of a number: [round(x) != 0]. *)
Definition bool_byte (x : float) : Z :=
  if Num.not_strict_zero (Num.Math_round x) then 1 else 0.

(** A platform whose strings are byte strings: encoding lists the bytes of a
    string into a new [Uint8Array], decoding reads them back. *)
Definition bytes_of_string (s : string) : list Z :=
  (fun c => Z.of_nat (nat_of_ascii c)) <$> list_ascii_of_string s.

Definition string_of_bytes (bs : list Z) : string :=
  string_of_list_ascii ((fun b => ascii_of_nat (Z.to_nat b)) <$> bs).

Definition byte_platform (debug : bool) : Env :=
  {| DEBUG := debug;
     checkConversionForErrors := spec_checkConversionForErrors;
     platform_encode := fun h s encoding =>
       match s, encoding with
       | Str s, Str "utf-8" =>
           let '(h', r) := alloc h (Uint8Array (bytes_of_string s)) in (h', Ok r)
       | _, _ => (h, Throw (Error "unsupported"))
       end;
     platform_decode := fun h bytes encoding =>
       match bytes, encoding with
       | TypedRef l, Str "utf-8" =>
           match h !! l with
           | Some (Uint8Array bs) => Ok (Str (string_of_bytes bs))
           | _ => Throw (TypeError "not a byte buffer")
           end
       | _, _ => Throw (Error "unsupported")
       end;
     ToNumber_host := fun _ => nan;
     construct_host := fun h _ _ => (h, Throw (TypeError "unsupported")) |}.

(** ** Notions used by the further properties *)

(** What [flatten] pushes as it is: anything but an array or an object, and
    a typed array only when typed arrays are skipped. *)
Definition is_leaf (skipTypedArray : bool) (v : value) : bool :=
  match v with
  | Array _ | Object _ => false
  | TypedRef _ => skipTypedArray
  | _ => true
  end.

(** The array-like object that holds the elements of a list under their
    indices: [{0: v0, 1: v1, ...}]. *)
Definition array_like (vs : list value) : list (string * value) :=
  imap (fun i v => (index_key (Z.of_nat i), v)) vs.

Definition buffer_length (t : TypedArray) : nat :=
  match t with
  | Float32Array data => length data
  | Int32Array data | Uint8Array data | Uint8ClampedArray data => length data
  end.

(** The buffer that a target type asks for, given the numbers to store;
    [None] for a type that has none. *)
Definition converted (dtype : option string) (xs : list float) : option TypedArray :=
  if is_nullish dtype || dtype_is dtype "float32" || dtype_is dtype "complex64" then
    Some (Float32Array (Num.fround <$> xs))
  else if dtype_is dtype "int32" then Some (Int32Array (Num.ToInt32 <$> xs))
  else if dtype_is dtype "bool" then Some (Uint8Array (bool_byte <$> xs))
  else None.

(** Arrays and typed arrays. *)
Definition is_sequence (a : value) : bool := Array_isArray a || isTypedArray a.

(** * Properties *)

(** ** The conversions of numbers *)

(** [nearest] is within a half of the number, the upper half excluded:
    [n - 1/2 <= x < n + 1/2], with all terms scaled by [2 * 2^(-e)]. *)
Lemma nearest_spec (s : bool) (m : positive) (e : Z) :
  e < 0 ->
  let x2 := 2 * (if s then Z.neg m else Z.pos m) in
  let n := Num.nearest s m e in
  2 ^ (- e) * (2 * n - 1) <= x2 < 2 ^ (- e) * (2 * n + 1).
Proof.
  intros He x2 n. subst n. unfold Num.nearest. fold x2.
  rewrite Z.shiftr_div_pow2 by lia.
  replace (1 - e) with (Z.succ (- e)) by lia. rewrite Z.pow_succ_r by lia.
  assert (Hp : 0 < 2 ^ (- e)) by (apply Z.pow_pos_nonneg; lia).
  generalize dependent (2 ^ (- e)). intros p Hp.
  pose proof (Z.div_mod (x2 + p) (2 * p) ltac:(lia)) as Hdiv.
  pose proof (Z.mod_pos_bound (x2 + p) (2 * p) ltac:(lia)) as Hmod.
  nia.
Qed.

Example Math_round_ties :
  Num.Math_round <$> [0.5; -0.5; 1.5; 2.5; -1.5; -2.5; 0.49999999999999994; -0.4; 1e40]%float
  = [1; -0; 2; 3; -1; -2; 0; -0; 1e40]%float.
Proof. reflexivity. Qed.

Example ToInt32_samples :
  Num.ToInt32 <$> [2147483648; -2147483649; 4294967297.5; -1.9; nan; infinity; 1e40]%float
  = [-2147483648; 2147483647; 1; -1; 0; 0; 0].
Proof. reflexivity. Qed.

Example fround_samples :
  Num.fround <$> [0.1; 16777217; 1e40; -1e-46; 0.5]%float
  = [0.10000000149011612; 16777216; infinity; -0; 0.5]%float.
Proof. reflexivity. Qed.

(** ** The matcher decides the language *)

Module RegExpFacts.
Import RegExp.

Lemma append_cons (c : ascii) (s1 s2 : string) :
  String c s1 +:+ s2 = String c (s1 +:+ s2).
Proof. reflexivity. Qed.

Lemma append_empty_inv (s1 s2 : string) : s1 +:+ s2 = "" -> s1 = "" /\ s2 = "".
Proof.
  destruct s1; [intros H; split; [reflexivity | exact H]|].
  rewrite append_cons. discriminate.
Qed.

Lemma nullable_spec (r : regex) : nullable r = true <-> Matches r "".
Proof.
  induction r as [| | lo hi | r1 IH1 r2 IH2 | r1 IH1 r2 IH2 | r IH]; simpl.
  - split; [discriminate | inversion 1].
  - split; [constructor | reflexivity].
  - split; [discriminate | inversion 1].
  - rewrite andb_true_iff, IH1, IH2. split.
    + intros [H1 H2]. exact (MCat _ _ "" "" H1 H2).
    + inversion 1; subst.
      match goal with
      | Heq : _ +:+ _ = "" |- _ => apply append_empty_inv in Heq as [-> ->]
      end. tauto.
  - rewrite orb_true_iff, IH1, IH2. split.
    + intros [H|H]; [apply MAltL | apply MAltR]; exact H.
    + inversion 1; subst; tauto.
  - split; [constructor | reflexivity].
Qed.

Lemma star_app (r : regex) (s1 s2 : string) :
  Matches r s1 -> Matches (Star r) s2 -> Matches (Star r) (s1 +:+ s2).
Proof.
  destruct s1 as [|c s1]; intros H1 H2; [exact H2 | now apply MStarS].
Qed.

Lemma deriv_sound (c : ascii) (r : regex) :
  forall s, Matches (deriv c r) s -> Matches r (String c s).
Proof.
  induction r as [| | lo hi | r1 IH1 r2 IH2 | r1 IH1 r2 IH2 | r IH]; simpl; intros s H.
  - inversion H.
  - inversion H.
  - destruct (in_range lo hi c) eqn:Hc; inversion H; subst. now constructor.
  - assert (Hcat : forall w, Matches (Cat (deriv c r1) r2) w -> Matches (Cat r1 r2) (String c w)).
    { intros w Hw. inversion Hw; subst.
      rewrite <- append_cons. apply MCat; [apply IH1|]; assumption. }
    destruct (nullable r1) eqn:Hn; [|now apply Hcat].
    inversion H; subst; [now apply Hcat|].
    apply nullable_spec in Hn. apply (MCat _ _ "" (String c s) Hn). apply IH2. assumption.
  - inversion H; subst; [apply MAltL | apply MAltR]; auto.
  - inversion H; subst. rewrite <- append_cons.
    apply MStarS; [apply IH|]; assumption.
Qed.

Lemma deriv_complete (r : regex) (w : string) :
  Matches r w -> forall c s, w = String c s -> Matches (deriv c r) s.
Proof.
  induction 1 as [| lo hi c0 Hc | r1 r2 s1 s2 H1 IH1 H2 IH2 | r1 r2 w H IH
                 | r1 r2 w H IH | r | r c0 s1 s2 H1 IH1 H2 IH2]; intros c s Hw; simpl.
  - discriminate.
  - injection Hw as -> <-. rewrite Hc. constructor.
  - destruct s1 as [|c1 s1]; [change ("" +:+ s2) with s2 in Hw | rewrite append_cons in Hw].
    + subst s2. apply nullable_spec in H1. rewrite H1. apply MAltR. now apply IH2.
    + injection Hw as -> <-.
      assert (Hcat : Matches (Cat (deriv c r1) r2) (s1 +:+ s2))
        by (apply MCat; [now apply IH1 | exact H2]).
      destruct (nullable r1); [now apply MAltL | exact Hcat].
  - apply MAltL. now apply IH.
  - apply MAltR. now apply IH.
  - discriminate.
  - rewrite append_cons in Hw. injection Hw as -> <-.
    apply MCat; [now apply IH1 | exact H2].
Qed.

Lemma test_spec (r : regex) (s : string) : test r s = true <-> Matches r s.
Proof.
  revert r. induction s as [|c s IH]; intros r; simpl.
  - apply nullable_spec.
  - rewrite IH. split; [apply deriv_sound | intros H; now apply (deriv_complete r _ H)].
Qed.

(** Strings over one character class. *)
Lemma star_range_intro (lo hi : ascii) (s : string) :
  forallb (in_range lo hi) (list_ascii_of_string s) = true ->
  Matches (Star (Range lo hi)) s.
Proof.
  induction s as [|c s IH]; simpl; [constructor|].
  rewrite andb_true_iff. intros [Hc Hs].
  apply (MStarS _ c "" s); [now constructor | now apply IH].
Qed.

Lemma star_range_elim (r : regex) (s : string) :
  Matches r s -> forall a b, r = Star (Range a b) ->
  forallb (in_range a b) (list_ascii_of_string s) = true.
Proof.
  induction 1 as [| | | | | r | r c0 s1 s2 H1 _ H2 IH2]; intros a b Hr; try discriminate.
  - reflexivity.
  - injection Hr as ->. inversion H1; subst. simpl.
    rewrite andb_true_iff. split; [assumption | now apply IH2].
Qed.

End RegExpFacts.

(** ** The key pattern *)

Section KeyPattern.
Import RegExp RegExpFacts.

Lemma in_range_iff (lo hi c : ascii) :
  in_range lo hi c = true <->
  (nat_of_ascii lo <= nat_of_ascii c <= nat_of_ascii hi)%nat.
Proof. unfold in_range. rewrite andb_true_iff, !Nat.leb_le. tauto. Qed.

Lemma nat_of_ascii_zero (c : ascii) : nat_of_ascii c = 48%nat <-> c = "0"%char.
Proof.
  split; [|now intros ->].
  intros H. rewrite <- (ascii_nat_embedding c), H. reflexivity.
Qed.

Lemma nonzero_digit (c : ascii) :
  in_range "1" "9" c = true <-> Ascii.eqb c "0" = false /\ is_digit c = true.
Proof.
  unfold is_digit. rewrite !in_range_iff, Ascii.eqb_neq, <- nat_of_ascii_zero.
  change (nat_of_ascii "0") with 48%nat. change (nat_of_ascii "1") with 49%nat.
  lia.
Qed.

Lemma list_ascii_of_append (s1 s2 : string) :
  list_ascii_of_string (s1 +:+ s2) = list_ascii_of_string s1 ++ list_ascii_of_string s2.
Proof.
  induction s1 as [|c s1 IH]; [reflexivity|].
  rewrite append_cons. simpl. now rewrite IH.
Qed.

Lemma digits_of_nonzero_digits (l : list ascii) :
  forallb (in_range "1" "9") l = true -> forallb is_digit l = true.
Proof.
  rewrite !forallb_forall. intros H c Hc. now apply nonzero_digit, H.
Qed.

Lemma INDEX_KEY_sound (key : string) :
  Matches INDEX_KEY key -> canonical_index key = true.
Proof.
  unfold INDEX_KEY, Plus, Chr. intros H. inversion H as [| | |? ? ? HL|? ? ? HR| |]; subst.
  - inversion HL as [| |? ? s1 s2 Hplus Hdigits| | | |]; subst.
    inversion Hplus as [| |? ? s11 s12 Hfirst Hmore| | | |]; subst.
    inversion Hfirst as [|? ? c Hc| | | | |]; subst.
    apply nonzero_digit in Hc as [Hc0 Hcd].
    rewrite !append_cons. change ("" +:+ s12) with s12. simpl. rewrite Hc0, Hcd. simpl.
    rewrite list_ascii_of_append, forallb_app, andb_true_iff. split.
    + now apply digits_of_nonzero_digits, (star_range_elim _ _ Hmore).
    + now apply (star_range_elim _ _ Hdigits).
  - inversion HR as [|? ? c Hc| | | | |]; subst.
    apply in_range_iff in Hc. change (nat_of_ascii "0") with 48%nat in Hc.
    assert (c = "0"%char) as -> by (apply nat_of_ascii_zero; lia).
    reflexivity.
Qed.

Lemma INDEX_KEY_complete (key : string) :
  canonical_index key = true -> Matches INDEX_KEY key.
Proof.
  unfold INDEX_KEY, Plus, Chr. destruct key as [|c rest]; simpl; [discriminate|].
  destruct (Ascii.eqb c "0") eqn:Hc0.
  - rewrite String.eqb_eq. intros ->. apply Ascii.eqb_eq in Hc0 as ->.
    apply MAltR. now constructor.
  - rewrite andb_true_iff. intros [Hcd Hrest]. apply MAltL.
    apply (MCat _ _ (String c "") rest); [|now apply star_range_intro].
    apply (MCat _ _ (String c "") ""); [|constructor].
    constructor. now apply nonzero_digit.
Qed.

(** The pattern accepts exactly the canonical decimal indices. *)
Lemma test_INDEX_KEY (key : string) :
  RegExp.test INDEX_KEY key = canonical_index key.
Proof.
  destruct (canonical_index key) eqn:Hc.
  - now apply test_spec, INDEX_KEY_complete.
  - destruct (test INDEX_KEY key) eqn:Ht; [|reflexivity].
    apply test_spec, INDEX_KEY_sound in Ht. congruence.
Qed.

End KeyPattern.

(** ** Index keys *)

Section IndexKeys.
Import Decimal.

Lemma nzhead_not_D0 (u v : uint) : nzhead u <> D0 v.
Proof. induction u; simpl; try discriminate. exact IHu. Qed.

Lemma unorm_D0_fixed (d : uint) : unorm (D0 d) = D0 d -> d = Nil.
Proof.
  unfold unorm. simpl. destruct (nzhead d) eqn:Hd; intros H;
    try (now injection H as <-); exfalso; apply (nzhead_not_D0 d d); congruence.
Qed.

Lemma to_uint_normal (n : N) : unorm (N.to_uint n) = N.to_uint n.
Proof.
  rewrite <- (DecimalN.Unsigned.of_to n) at 2.
  symmetry. apply DecimalN.Unsigned.to_of.
Qed.

Lemma to_uint_not_Nil (n : N) : N.to_uint n <> Nil.
Proof. rewrite <- to_uint_normal. unfold unorm. now destruct (nzhead _). Qed.

Lemma string_of_uint_digits (d : uint) :
  forallb is_digit (list_ascii_of_string (NilEmpty.string_of_uint d)) = true.
Proof. induction d; simpl; auto. Qed.

Lemma canonical_of_normal (d : uint) :
  unorm d = d -> canonical_index (NilZero.string_of_uint d) = true.
Proof.
  destruct d; intros H; try (simpl; apply string_of_uint_digits).
  - discriminate.
  - apply unorm_D0_fixed in H as ->. reflexivity.
Qed.

(** The key of an index always has the canonical form. *)
Lemma index_key_canonical (i : Z) : canonical_index (index_key i) = true.
Proof. apply canonical_of_normal, to_uint_normal. Qed.

Lemma Number_of_index_key (i : Z) : 0 <= i -> Number_of_key (index_key i) = i.
Proof.
  intros Hi. unfold Number_of_key, index_key.
  rewrite NilZero.usu by apply to_uint_not_Nil.
  rewrite DecimalN.Unsigned.of_to. lia.
Qed.

Lemma digits_parse (s : string) :
  forallb is_digit (list_ascii_of_string s) = true ->
  exists d, NilEmpty.uint_of_string s = Some d.
Proof.
  induction s as [|c s IH]; simpl; [now exists Nil|].
  rewrite andb_true_iff. intros [Hc Hs]. destruct (IH Hs) as [d ->].
  revert Hc. destruct c as [[|] [|] [|] [|] [|] [|] [|] [|]]; simpl;
    try discriminate; intros _; eexists; reflexivity.
Qed.

Lemma canonical_parse (key : string) :
  canonical_index key = true ->
  exists d, NilZero.uint_of_string key = Some d /\ unorm d = d.
Proof.
  destruct key as [|c rest]; simpl; [discriminate|].
  destruct (Ascii.eqb c "0") eqn:Hc0.
  - rewrite String.eqb_eq. intros ->. apply Ascii.eqb_eq in Hc0 as ->.
    exists (D0 Nil). split; reflexivity.
  - rewrite andb_true_iff. intros [Hc Hrest].
    destruct (digits_parse rest Hrest) as [d ->].
    revert Hc0 Hc. destruct c as [[|] [|] [|] [|] [|] [|] [|] [|]]; simpl;
      try discriminate; intros _ _; eexists; (split; [reflexivity|]); reflexivity.
Qed.

(** A canonical key is the key of the index it denotes. *)
Lemma index_key_of_Number (key : string) :
  canonical_index key = true -> index_key (Number_of_key key) = key.
Proof.
  intros (d & Hd & Hnorm)%canonical_parse. unfold Number_of_key, index_key.
  rewrite Hd, N2Z.id, DecimalN.Unsigned.to_of, Hnorm. now apply NilZero.sus.
Qed.

Lemma Number_of_key_nonneg (key : string) : 0 <= Number_of_key key.
Proof. unfold Number_of_key. destruct (NilZero.uint_of_string key); lia. Qed.

End IndexKeys.

(** ** Induction on values *)

Lemma value_nested_ind (P : value -> Prop) :
  P Undefined -> P Null -> (forall b, P (Bool b)) -> (forall x, P (Number x)) ->
  (forall s, P (Str s)) -> (forall id, P (PromiseV id)) ->
  (forall elems, Forall P elems -> P (Array elems)) ->
  (forall l, P (TypedRef l)) ->
  (forall props, Forall (fun kv => P kv.2) props -> P (Object props)) ->
  forall v, P v.
Proof.
  intros HU HN HB HNum HS HP HA HT HO. fix IH 1.
  intros [| |b|x|s|id|elems|l|props];
    [exact HU | exact HN | apply HB | apply HNum | apply HS | apply HP | | apply HT | ].
  - apply HA. induction elems as [|v elems IHelems]; constructor; [apply IH | exact IHelems].
  - apply HO. induction props as [|[k v] props IHprops]; constructor; [apply IH | exact IHprops].
Qed.

(** ** flatten *)

Section Flatten.
Variable h : heap.
Variable skipTypedArray : bool.

(** A loop that only appends: the initial content stays in front. *)
Lemma foldl_append {B : Type} (g : list value -> B -> list value) (l : list B) :
  (forall x, x ∈ l -> forall r, g r x = r ++ g [] x) ->
  forall r, foldl g r l = r ++ concat (g [] <$> l).
Proof.
  induction l as [|x l IH]; intros Hg r; simpl.
  - now rewrite app_nil_r.
  - rewrite IH by (intros y Hy; apply Hg; now right).
    rewrite (Hg x) by now left. now rewrite <- app_assoc.
Qed.

Lemma with_prop_lookup {A : Type} (key : string) (found : value -> A) (missing : A)
    (props : list (string * value)) :
  with_prop key found missing props =
  match with_prop key Some None props with
  | Some v => found v
  | None => missing
  end.
Proof.
  induction props as [|[k v] props IH]; simpl; [reflexivity|].
  now destruct (String.eqb k key).
Qed.

Lemma with_prop_elem (key : string) (props : list (string * value)) (v : value) :
  with_prop key Some None props = Some v -> (key, v) ∈ props.
Proof.
  induction props as [|[k w] props IH]; simpl; [discriminate|].
  destruct (String.eqb k key) eqn:Hk.
  - apply String.eqb_eq in Hk as ->. intros [= ->]. now left.
  - intros H. right. now apply IH.
Qed.

Lemma prop_get_lookup (props : list (string * value)) (key : string) :
  prop_get props key = default Undefined (with_prop key Some None props).
Proof. unfold prop_get. now rewrite with_prop_lookup. Qed.

(** The first branch: scalars, promises and nullish values are pushed. *)
Lemma flatten_leaf (v : value) (result : option (list value)) :
  match v with Array _ | TypedRef _ | Object _ => False | _ => True end ->
  flatten h v result skipTypedArray = default [] result ++ [v].
Proof. now destruct v. Qed.

(** The second branch, on arrays, as the source has it. *)
Lemma flatten_array_eq (elems : list value) (result : option (list value)) :
  flatten h (Array elems) result skipTypedArray =
  foldl (fun result x => flatten h x (Some result) skipTypedArray)
        (default [] result) elems.
Proof. reflexivity. Qed.

(** The last branch as the source has it: [flatten(arr[i], result, ...)]. *)
Lemma flatten_object_eq (props : list (string * value)) (result : option (list value)) :
  flatten h (Object props) result skipTypedArray =
  foldl (fun result i =>
           flatten h (prop_get props (index_key i)) (Some result) skipTypedArray)
        (default [] result) (seqZ 0 (maxIndex_of (Object_keys props) + 1)).
Proof.
  simpl. generalize (default [] result).
  induction (seqZ 0 (maxIndex_of (Object_keys props) + 1)) as [|i l IH]; intros r; simpl;
    [reflexivity|].
  rewrite IH. f_equal. rewrite with_prop_lookup, prop_get_lookup.
  now destruct (with_prop (index_key i) Some None props).
Qed.

(** [flatten] appends to [result]. *)
Lemma flatten_append (v : value) :
  forall result,
    flatten h v result skipTypedArray =
    default [] result ++ flatten h v None skipTypedArray.
Proof.
  induction v as [| |b|x|s|id|elems IH|l|props IH] using value_nested_ind;
    intros result; try reflexivity.
  - rewrite !flatten_array_eq.
    rewrite !(foldl_append (fun result x => flatten h x (Some result) skipTypedArray)).
    + reflexivity.
    + intros x Hx r. rewrite Forall_forall in IH.
      now rewrite (IH x Hx (Some r)), (IH x Hx (Some [])).
    + intros x Hx r. rewrite Forall_forall in IH.
      now rewrite (IH x Hx (Some r)), (IH x Hx (Some [])).
  - simpl. destruct skipTypedArray; [reflexivity|].
    rewrite !(foldl_append (fun result x => result ++ [x])); auto.
  - rewrite !flatten_object_eq.
    assert (Hstep : forall i r,
               flatten h (prop_get props (index_key i)) (Some r) skipTypedArray =
               r ++ flatten h (prop_get props (index_key i)) (Some []) skipTypedArray).
    { intros i r. rewrite prop_get_lookup.
      destruct (with_prop (index_key i) Some None props) as [v|] eqn:Hv; [|reflexivity].
      apply with_prop_elem in Hv. rewrite Forall_forall in IH.
      pose proof (IH _ Hv) as IHv. simpl in IHv |- *.
      now rewrite (IHv (Some r)), (IHv (Some [])). }
    rewrite !(foldl_append
                (fun result i =>
                   flatten h (prop_get props (index_key i)) (Some result) skipTypedArray));
      auto.
Qed.

Lemma flatten_array_concat (elems : list value) :
  flatten h (Array elems) None skipTypedArray =
  concat ((fun x => flatten h x None skipTypedArray) <$> elems).
Proof.
  rewrite flatten_array_eq.
  rewrite (foldl_append (fun result x => flatten h x (Some result) skipTypedArray)).
  - simpl. f_equal. apply list_fmap_ext. intros _ x _. apply (flatten_append x (Some [])).
  - intros x _ r. now rewrite (flatten_append x (Some r)), (flatten_append x (Some [])).
Qed.

Lemma flatten_object_concat (props : list (string * value)) :
  flatten h (Object props) None skipTypedArray =
  concat ((fun i => flatten h (prop_get props (index_key i)) None skipTypedArray)
            <$> seqZ 0 (maxIndex_of (Object_keys props) + 1)).
Proof.
  rewrite flatten_object_eq.
  rewrite (foldl_append
             (fun result i =>
                flatten h (prop_get props (index_key i)) (Some result) skipTypedArray)).
  - simpl. f_equal. apply list_fmap_ext. intros _ i _. apply (flatten_append _ (Some [])).
  - intros i _ r. now rewrite (flatten_append _ (Some r)), (flatten_append _ (Some [])).
Qed.

End Flatten.

(** A loop over the indices of a list is a loop over its elements. *)
Lemma foldl_indices {A : Type} (f : A -> value -> A) (l pre : list value) :
  forall a,
    foldl (fun a i => f a (default Undefined ((pre ++ l) !! i))) a
          (seq (length pre) (length l)) =
    foldl f a l.
Proof.
  revert pre. induction l as [|x l IH]; intros pre a; [reflexivity|].
  cbn [length seq foldl]. rewrite list_lookup_middle by reflexivity. cbn [default from_option id].
  specialize (IH (pre ++ [x])). rewrite <- app_assoc, length_app, Nat.add_1_r in IH.
  apply IH.
Qed.

(** An element of a typed array is a number, and the call on it pushes it:
    the second branch, on typed arrays, as the source has it. *)
Lemma flatten_typed_eq (h : heap) (l : nat) (result : option (list value)) :
  flatten h (TypedRef l) result false =
  foldl (fun result x => flatten h x (Some result) false)
        (default [] result) (typed_values h l).
Proof.
  simpl. generalize (default [] result). unfold typed_values.
  destruct (h !! l) as [t|]; [|reflexivity].
  induction (typed_numbers t) as [|x xs IH]; intros r; simpl; [reflexivity | apply IH].
Qed.

(** [flatten] in the shape of the source: the three branches, with their
    tests and their loops over indices. *)
Lemma flatten_unfold (h : heap) (arr : value) (result : option (list value))
    (skipTypedArray : bool) :
  flatten h arr result skipTypedArray =
  let result := default [] result in
  if String.eqb (typeof arr) "boolean" || String.eqb (typeof arr) "number" ||
     String.eqb (typeof arr) "string" || isPromise arr || eq_null arr ||
     isTypedArray arr && skipTypedArray
  then result ++ [arr]
  else if Array_isArray arr || isTypedArray arr then
    foldl (fun result i => flatten h (index h arr i) (Some result) skipTypedArray)
          result (seq 0 (length_of h arr))
  else
    let maxIndex := maxIndex_of (Object_keys (own_props arr)) in
    foldl (fun result i =>
             flatten h (prop_get (own_props arr) (index_key i)) (Some result) skipTypedArray)
          result (seqZ 0 (maxIndex + 1)).
Proof.
  destruct arr as [| |b|x|s|id|elems|l|props]; try reflexivity.
  - rewrite flatten_array_eq. cbv zeta.
    change (foldl (fun r x => flatten h x (Some r) skipTypedArray) (default [] result) elems =
            foldl (fun r i => flatten h (default Undefined (([] ++ elems) !! i)) (Some r)
                                      skipTypedArray)
                  (default [] result) (seq (length (@nil value)) (length elems))).
    now rewrite (foldl_indices (fun r x => flatten h x (Some r) skipTypedArray)).
  - destruct skipTypedArray; [reflexivity|].
    rewrite flatten_typed_eq. cbv zeta.
    change (foldl (fun r x => flatten h x (Some r) false) (default [] result) (typed_values h l) =
            foldl (fun r i => flatten h (default Undefined (([] ++ typed_values h l) !! i))
                                      (Some r) false)
                  (default [] result)
                  (seq (length (@nil value)) (length (typed_values h l)))).
    now rewrite (foldl_indices (fun r x => flatten h x (Some r) false)).
  - apply flatten_object_eq.
Qed.

(** ** The iteration bound of array-like objects *)

Lemma maxIndex_of_from (keys : list string) (m : Z) :
  -1 <= m ->
  foldl (fun maxIndex key =>
           if RegExp.test INDEX_KEY key then Z.max maxIndex (Number_of_key key)
           else maxIndex) m keys =
  Z.max m (foldr Z.max (-1) (Number_of_key <$> List.filter canonical_index keys)).
Proof.
  revert m. induction keys as [|key keys IH]; intros m Hm.
  - change (m = Z.max m (-1)). lia.
  - change (key :: keys) with ([key] ++ keys).
    rewrite foldl_app, List.filter_app, fmap_app, foldr_app.
    cbn [foldl List.filter]. rewrite test_INDEX_KEY.
    destruct (canonical_index key); cbn [fmap list_fmap foldr].
    + rewrite IH by lia.
      generalize (foldr Z.max (-1) (Number_of_key <$> List.filter canonical_index keys)).
      intros; lia.
    + now apply IH.
Qed.

(** The loop over the keys computes the greatest matching key. *)
Lemma maxIndex_of_matching (props : list (string * value)) :
  maxIndex_of (Object_keys props) = max_matching_key props.
Proof.
  unfold maxIndex_of, max_matching_key. rewrite maxIndex_of_from by lia.
  assert (H : forall l, -1 <= foldr Z.max (-1) l) by (induction l; simpl; lia).
  specialize (H (Number_of_key <$> List.filter canonical_index (Object_keys props))). lia.
Qed.

Lemma foldr_max_ge (l : list Z) (x : Z) : x ∈ l -> x <= foldr Z.max (-1) l.
Proof.
  induction 1 as [x l|x y l _ IH]; simpl; lia.
Qed.

Lemma with_prop_missing (key : string) (props : list (string * value)) :
  key ∉ Object_keys props -> with_prop key Some None props = None.
Proof.
  unfold Object_keys. induction props as [|[k v] props IH]; simpl; [reflexivity|].
  intros Hk. destruct (String.eqb k key) eqn:Heq.
  - apply String.eqb_eq in Heq as ->. exfalso. apply Hk. now left.
  - apply IH. intros Hin. apply Hk. now right.
Qed.

(** A key outside the pattern is never read: indices have canonical keys. *)
Lemma with_prop_skip (i : Z) (key : string) (v : value) (p1 p2 : list (string * value)) :
  canonical_index key = false ->
  with_prop (index_key i) Some None (p1 ++ (key, v) :: p2) =
  with_prop (index_key i) Some None (p1 ++ p2).
Proof.
  intros Hkey. induction p1 as [|[k w] p1 IH]; simpl.
  - destruct (String.eqb key (index_key i)) eqn:Heq; [|reflexivity].
    apply String.eqb_eq in Heq. rewrite Heq, index_key_canonical in Hkey. discriminate.
  - now rewrite IH.
Qed.

Lemma max_matching_key_skip (key : string) (v : value) (p1 p2 : list (string * value)) :
  canonical_index key = false ->
  max_matching_key (p1 ++ (key, v) :: p2) = max_matching_key (p1 ++ p2).
Proof.
  intros Hkey. unfold max_matching_key, Object_keys.
  rewrite !fmap_app, !List.filter_app. simpl. now rewrite Hkey.
Qed.

(** ** Claims about flatten *)

(** C1.  On a tree of sequences without array-like objects, [flatten] appends
    to [result] exactly the leaves of the tree in depth-first, left-to-right
    order, so the length of its output is the number of leaves; in particular
    [flatten([[1,2],[3,[4,[5]]]])] is [[1,2,3,4,5]]. *)
Theorem flatten_depth_first (h : heap) (v : value) (result : option (list value))
    (skipTypedBuffers : bool) :
  array_like_free v = true ->
  flatten h v result skipTypedBuffers = default [] result ++ leaves h skipTypedBuffers v /\
  length (flatten h v None skipTypedBuffers) = length (leaves h skipTypedBuffers v) /\
  flatten h (Array [Array [Number 1; Number 2];
                    Array [Number 3; Array [Number 4; Array [Number 5]]]])
          None skipTypedBuffers
  = [Number 1; Number 2; Number 3; Number 4; Number 5].
Proof.
  intros Hfree.
  assert (Hleaves : flatten h v None skipTypedBuffers = leaves h skipTypedBuffers v).
  { induction v as [| |b|x|s|id|elems IH|l|props IH] using value_nested_ind;
      try reflexivity; [| |discriminate].
    - rewrite flatten_array_concat. simpl. f_equal.
      simpl in Hfree. rewrite forallb_forall in Hfree. rewrite Forall_forall in IH.
      apply list_fmap_ext. intros _ x Hx%list_elem_of_lookup_2.
      apply IH; [exact Hx | apply Hfree, list_elem_of_In, Hx].
    - simpl. destruct skipTypedBuffers; [reflexivity|].
      rewrite (foldl_append (fun result x => result ++ [x])) by auto.
      simpl. induction (typed_values h l) as [|x xs IHxs]; simpl; [reflexivity | now f_equal]. }
  split; [|split].
  - now rewrite flatten_append, Hleaves.
  - now rewrite Hleaves.
  - reflexivity.
Qed.

Lemma flatten_depth_first_witness :
  flatten [] (Array [Array [Str "a"]; Null; Array [Array [Bool true; Number 7]]])
          (Some [Undefined]) false
  = [Undefined; Str "a"; Null; Bool true; Number 7].
Proof.
  refine (eq_trans (proj1 (flatten_depth_first [] _ (Some [Undefined]) false _)) _);
    reflexivity.
Defined.

(** C2.  On an array-like object, [flatten] looks only at the keys that match
    the pattern, visits every index from [0] to the greatest of them, and
    contributes [undefined] for an index that has no property; a property
    under a matching key is the one visited at its index.  In particular
    [flatten({0:'a', 2:'c'})] is [['a', undefined, 'c']]. *)
Theorem flatten_object_dense (h : heap) (props : list (string * value))
    (result : option (list value)) (skipTypedArray : bool) :
  flatten h (Object props) result skipTypedArray =
    default [] result ++
    concat ((fun i => flatten h (prop_get props (index_key i)) None skipTypedArray)
              <$> seqZ 0 (max_matching_key props + 1)) /\
  (forall i, index_key i ∉ Object_keys props ->
             flatten h (prop_get props (index_key i)) None skipTypedArray = [Undefined]) /\
  (forall key, key ∈ Object_keys props -> canonical_index key = true ->
               0 <= Number_of_key key <= max_matching_key props /\
               prop_get props (index_key (Number_of_key key)) = prop_get props key) /\
  flatten h (Object [("0", Str "a"); ("2", Str "c")]) None skipTypedArray
  = [Str "a"; Undefined; Str "c"].
Proof.
  split; [|split; [|split]].
  - now rewrite flatten_append, flatten_object_concat, maxIndex_of_matching.
  - intros i Hi. now rewrite prop_get_lookup, with_prop_missing.
  - intros key Hin Hkey. rewrite index_key_of_Number by exact Hkey.
    split; [split|reflexivity]; [apply Number_of_key_nonneg|].
    apply foldr_max_ge, list_elem_of_fmap_2, list_elem_of_In, List.filter_In.
    split; [now apply list_elem_of_In | exact Hkey].
  - reflexivity.
Qed.

(** C10.  The pattern accepts exactly the decimal numerals without leading
    zeros, so only such keys count towards the bound, and a property under
    any other key (['01'], ['-1'], ['1.5']) changes nothing:
    [flatten({'01': 'x'})] is empty and [flatten({'01': 'x', '1': 'y'})] is
    [[undefined, 'y']]. *)
Theorem flatten_ignores_other_keys :
  (forall key, RegExp.test INDEX_KEY key = canonical_index key) /\
  (forall props, maxIndex_of (Object_keys props) = max_matching_key props) /\
  (forall h key v p1 p2 result skipTypedArray,
      canonical_index key = false ->
      flatten h (Object (p1 ++ (key, v) :: p2)) result skipTypedArray =
      flatten h (Object (p1 ++ p2)) result skipTypedArray) /\
  RegExp.test INDEX_KEY "01" = false /\
  RegExp.test INDEX_KEY "-1" = false /\
  RegExp.test INDEX_KEY "1.5" = false /\
  (forall h skipTypedArray,
      flatten h (Object [("01", Str "x")]) None skipTypedArray = [] /\
      flatten h (Object [("01", Str "x"); ("1", Str "y")]) None skipTypedArray
      = [Undefined; Str "y"]).
Proof.
  split; [exact test_INDEX_KEY|].
  split; [exact maxIndex_of_matching|].
  split; [|repeat split; reflexivity].
  intros h key v p1 p2 result skipTypedArray Hkey.
  rewrite !flatten_object_eq, !maxIndex_of_matching, max_matching_key_skip by exact Hkey.
  generalize (default [] result).
  induction (seqZ 0 (max_matching_key (p1 ++ p2) + 1)) as [|i l IH]; intros r; simpl;
    [reflexivity|].
  rewrite IH. f_equal. now rewrite !prop_get_lookup, with_prop_skip.
Qed.

(** ** toTypedArray on arrays *)

Section Coercion.
Variable E : Env.
Variable h : heap.

Lemma validation_passes_eq (a : value) (dtype : option string) :
  validation_passes E h a dtype ->
  (if DEBUG E then checkConversionForErrors E h a dtype else None) = None.
Proof. intros [-> | H]; [reflexivity | now destruct (DEBUG E)]. Qed.

Lemma flatten_numbers (xs : list float) :
  flatten h (Array (Number <$> xs)) None false = Number <$> xs.
Proof.
  rewrite flatten_array_concat.
  induction xs as [|x xs IH]; simpl; [reflexivity | f_equal; exact IH].
Qed.

Lemma noConversionNeeded_array (elems : list value) (dtype : option string) :
  noConversionNeeded h (Array elems) dtype = false.
Proof. reflexivity. Qed.

Lemma store_byte_last (data : list Z) (i : nat) (b : Z) :
  store_byte (h ++ [Uint8Array data]) (length h) i b =
  h ++ [Uint8Array (<[i:=b]> data)].
Proof.
  unfold store_byte. rewrite list_lookup_middle by reflexivity.
  rewrite insert_app_r_alt, Nat.sub_diag by lia. reflexivity.
Qed.

Lemma index_array (h' : heap) (vs : list value) (i : nat) (v : value) :
  vs !! i = Some v -> index h' (Array vs) i = v.
Proof. unfold index, elements. now intros ->. Qed.

(** The state of the ['bool'] loop after [k] iterations over an array. *)
Lemma fill_bool_prefix (vs : list value) (k : nat) :
  (k <= length vs)%nat ->
  fill_bool E (Array vs) (length h) k (h ++ [Uint8Array (replicate (length vs) 0)]) =
  h ++ [Uint8Array (((fun v => bool_byte (ToNumber E v)) <$> take k vs) ++
                    replicate (length vs - k) 0)].
Proof.
  unfold fill_bool. induction k as [|k IH]; intros Hk.
  - simpl. now rewrite Nat.sub_0_r.
  - rewrite seq_S, foldl_app, IH by lia. cbn [foldl]. rewrite Nat.add_0_l.
    destruct (lookup_lt_is_Some_2 vs k ltac:(lia)) as [v Hv].
    rewrite (index_array _ _ _ _ Hv), (take_S_r _ _ _ Hv), fmap_app, <- app_assoc.
    replace (length vs - k)%nat with (S (length vs - S k)) by lia.
    cbn [fmap list_fmap replicate app].
    destruct (Num.not_strict_zero (Num.Math_round (ToNumber E v))) eqn:Hnz.
    + replace (bool_byte (ToNumber E v)) with 1 by (unfold bool_byte; now rewrite Hnz).
      rewrite store_byte_last. do 3 f_equal.
      rewrite insert_app_r_alt; rewrite length_fmap, length_take; [|lia].
      now replace (k - k `min` length vs)%nat with 0%nat by lia.
    + replace (bool_byte (ToNumber E v)) with 0 by (unfold bool_byte; now rewrite Hnz).
      reflexivity.
Qed.

Lemma fill_bool_array (vs : list value) :
  fill_bool E (Array vs) (length h) (length vs)
            (h ++ [Uint8Array (replicate (length vs) 0)]) =
  h ++ [Uint8Array ((fun v => bool_byte (ToNumber E v)) <$> vs)].
Proof.
  rewrite fill_bool_prefix by lia.
  now rewrite firstn_all, Nat.sub_diag, app_nil_r.
Qed.

(** An array is flattened, validated if [DEBUG] is set, and converted into
    a new typed array. *)
Lemma toTypedArray_array (elems : list value) (dtype : option string) :
  dtype_is dtype "string" = false ->
  let leaves := flatten h (Array elems) None false in
  validation_passes E h (Array leaves) dtype ->
  toTypedArray E h (Array elems) dtype =
  if is_nullish dtype || dtype_is dtype "float32" || dtype_is dtype "complex64" then
    (h ++ [Float32Array ((fun v => Num.fround (ToNumber E v)) <$> leaves)],
     Ok (TypedRef (length h)))
  else if dtype_is dtype "int32" then
    (h ++ [Int32Array ((fun v => Num.ToInt32 (ToNumber E v)) <$> leaves)],
     Ok (TypedRef (length h)))
  else if dtype_is dtype "bool" then
    (h ++ [Uint8Array ((fun v => bool_byte (ToNumber E v)) <$> leaves)],
     Ok (TypedRef (length h)))
  else (h, Throw (Error ("Unknown data type " +:+ default "" dtype))).
Proof.
  intros Hstr leaves Hval. unfold toTypedArray. rewrite Hstr.
  change (Array_isArray (Array elems)) with true. cbv iota. fold leaves.
  rewrite (validation_passes_eq _ _ Hval), noConversionNeeded_array.
  destruct (is_nullish dtype || dtype_is dtype "float32" || dtype_is dtype "complex64");
    [reflexivity|].
  destruct (dtype_is dtype "int32"); [reflexivity|].
  destruct (dtype_is dtype "bool"); [|reflexivity].
  unfold elements, alloc. now rewrite fill_bool_array.
Qed.

End Coercion.

(** ** Claims about toTypedArray *)

(** C3.  Coerced to ['bool'], a sequence of numbers becomes a new byte buffer
    that holds, at each position, [1] if the number rounded to the nearest
    integer is not zero and [0] if it is; [[0, 0.4, -0.4, 1, -1]] becomes
    [[0, 0, 0, 1, 1]]. *)
Theorem toTypedArray_bool (E : Env) (h : heap) (xs : list float) :
  validation_passes E h (Array (Number <$> xs)) (Some "bool") ->
  toTypedArray E h (Array (Number <$> xs)) (Some "bool") =
    (h ++ [Uint8Array (bool_byte <$> xs)], Ok (TypedRef (length h))) /\
  (forall i x, xs !! i = Some x ->
     (bool_byte <$> xs) !! i =
     Some (if Num.not_strict_zero (Num.Math_round x) then 1 else 0)) /\
  (forall x s m e,
      Prim2SF x = S754_finite s m e -> e < 0 -> Num.nearest s m e = 0 -> bool_byte x = 0) /\
  (xs = [0; 0.4; -0.4; 1; -1]%float ->
   toTypedArray E h (Array [Number 0; Number 0.4; Number (-0.4); Number 1; Number (-1)])
                (Some "bool") =
   (h ++ [Uint8Array [0; 0; 0; 1; 1]], Ok (TypedRef (length h)))).
Proof.
  intros Hval.
  assert (Hcall : toTypedArray E h (Array (Number <$> xs)) (Some "bool") =
                  (h ++ [Uint8Array (bool_byte <$> xs)], Ok (TypedRef (length h)))).
  { rewrite toTypedArray_array; rewrite ?flatten_numbers; [|reflexivity|exact Hval].
    change (dtype_is (Some "bool") "float32") with false.
    change (dtype_is (Some "bool") "complex64") with false.
    change (dtype_is (Some "bool") "int32") with false.
    change (dtype_is (Some "bool") "bool") with true. cbn [is_nullish orb].
    now rewrite <- list_fmap_compose. }
  split; [exact Hcall | split; [|split]].
  - intros i x Hx. now rewrite list_lookup_fmap, Hx.
  - intros x s m e Hx He Hn. unfold bool_byte, Num.Math_round. rewrite Hx, Hn.
    destruct (Z.leb_spec 0 e); [lia|]. now destruct s.
  - intros ->. exact Hcall.
Qed.

Lemma toTypedArray_bool_witness :
  toTypedArray (byte_platform false) []
               (Array (Number <$> [0; 0.4; -0.4; 1; -1]%float)) (Some "bool")
  = ([Uint8Array [0; 0; 0; 1; 1]], Ok (TypedRef 0)).
Proof.
  exact (proj1 (toTypedArray_bool (byte_platform false) [] [0; 0.4; -0.4; 1; -1]%float
                                  (or_introl eq_refl))).
Defined.

Lemma wrap32_range (z : Z) : - 2 ^ 31 <= Num.wrap32 z < 2 ^ 31.
Proof.
  unfold Num.wrap32. pose proof (Z.mod_pos_bound z (2 ^ 32) ltac:(lia)) as H.
  destruct (Z.leb_spec (2 ^ 31) (z mod 2 ^ 32)); lia.
Qed.

Lemma wrap32_small (z : Z) : - 2 ^ 31 <= z < 2 ^ 31 -> Num.wrap32 z = z.
Proof.
  intros Hz. unfold Num.wrap32.
  destruct (Z.leb_spec (2 ^ 31) (z mod 2 ^ 32)) as [H|H];
    revert H; rewrite Z.mod_eq by lia;
    assert (z / 2 ^ 32 = 0 \/ z / 2 ^ 32 = -1) as [-> | ->]
      by (assert (-1 <= z / 2 ^ 32 < 1);
          [split; [apply Z.div_le_lower_bound | apply Z.div_lt_upper_bound]|]; lia);
    try lia;
    assert (z / 2 ^ 32 = 0 <-> 0 <= z) by (rewrite Z.div_small_iff by lia; lia); lia.
Qed.

Lemma ToInt32_range (x : float) : - 2 ^ 31 <= Num.ToInt32 x < 2 ^ 31.
Proof.
  unfold Num.ToInt32. destruct (Prim2SF x); try lia. apply wrap32_range.
Qed.

(** Dropping the fraction rounds towards zero. *)
Lemma truncate_quot (s : bool) (m : positive) (e : Z) :
  e < 0 ->
  Num.truncate s m e = Z.quot (if s then Z.neg m else Z.pos m) (2 ^ (- e)).
Proof.
  intros He. unfold Num.truncate.
  destruct (Z.leb_spec 0 e); [lia|].
  assert (Hp : 0 < 2 ^ (- e)) by (apply Z.pow_pos_nonneg; lia).
  rewrite Z.shiftr_div_pow2 by lia.
  rewrite <- Z.quot_div_nonneg by lia.
  destruct s; [|reflexivity].
  rewrite <- Pos2Z.opp_pos, Z.quot_opp_l by lia. reflexivity.
Qed.

(** C5.  Coerced to ['int32'], a sequence of numbers becomes a new buffer of
    32-bit signed integers, each the number with its fraction dropped
    (towards zero, not to nearest) and narrowed to 32 bits;
    [[1.5, -2.7, 0]] becomes [[1, -2, 0]]. *)
Theorem toTypedArray_int32 (E : Env) (h : heap) (xs : list float) :
  validation_passes E h (Array (Number <$> xs)) (Some "int32") ->
  toTypedArray E h (Array (Number <$> xs)) (Some "int32") =
    (h ++ [Int32Array (Num.ToInt32 <$> xs)], Ok (TypedRef (length h))) /\
  Forall (fun z => - 2 ^ 31 <= z < 2 ^ 31) (Num.ToInt32 <$> xs) /\
  (forall x s m e,
      Prim2SF x = S754_finite s m e -> e < 0 ->
      let towards_zero := Z.quot (if s then Z.neg m else Z.pos m) (2 ^ (- e)) in
      - 2 ^ 31 <= towards_zero < 2 ^ 31 -> Num.ToInt32 x = towards_zero) /\
  (xs = [1.5; -2.7; 0]%float ->
   toTypedArray E h (Array [Number 1.5; Number (-2.7); Number 0]) (Some "int32") =
   (h ++ [Int32Array [1; -2; 0]], Ok (TypedRef (length h)))).
Proof.
  intros Hval.
  assert (Hcall : toTypedArray E h (Array (Number <$> xs)) (Some "int32") =
                  (h ++ [Int32Array (Num.ToInt32 <$> xs)], Ok (TypedRef (length h)))).
  { rewrite toTypedArray_array; rewrite ?flatten_numbers; [|reflexivity|exact Hval].
    change (dtype_is (Some "int32") "float32") with false.
    change (dtype_is (Some "int32") "complex64") with false.
    change (dtype_is (Some "int32") "int32") with true. cbn [is_nullish orb].
    now rewrite <- list_fmap_compose. }
  split; [exact Hcall | split; [|split]].
  - apply Forall_fmap, Forall_forall. intros x _. apply ToInt32_range.
  - intros x s m e Hx He towards_zero Hrange. unfold Num.ToInt32. rewrite Hx.
    rewrite truncate_quot by exact He. now apply wrap32_small.
  - intros ->. exact Hcall.
Qed.

Lemma toTypedArray_int32_witness :
  toTypedArray (byte_platform false) [] (Array (Number <$> [1.5; -2.7; 0]%float))
               (Some "int32")
  = ([Int32Array [1; -2; 0]], Ok (TypedRef 0)).
Proof.
  exact (proj1 (toTypedArray_int32 (byte_platform false) [] [1.5; -2.7; 0]%float
                                   (or_introl eq_refl))).
Defined.

(** C4.  When the input is a typed buffer whose element type is the target
    type, the coercer returns the location it was given and leaves the store
    as it was: nothing is copied, allocated or written. *)
Theorem toTypedArray_fast_path (E : Env) (h : heap) (l : nat) (t : TypedArray)
    (dtype : option string) :
  h !! l = Some t ->
  matches_dtype t dtype ->
  validation_passes E h (TypedRef l) dtype ->
  toTypedArray E h (TypedRef l) dtype = (h, Ok (TypedRef l)).
Proof.
  intros Hl Hmatch Hval. unfold toTypedArray.
  change (Array_isArray (TypedRef l)) with false. cbv iota.
  rewrite (validation_passes_eq _ _ _ _ Hval).
  unfold noConversionNeeded, instanceof_Float32Array, instanceof_Int32Array,
    instanceof_Uint8Array. rewrite Hl.
  destruct t; simpl in Hmatch; subst; try contradiction; reflexivity.
Qed.

Lemma toTypedArray_fast_path_witness :
  toTypedArray (byte_platform true) [Int32Array [4]; Float32Array [1.5; nan]%float]
               (TypedRef 1) (Some "float32")
  = ([Int32Array [4]; Float32Array [1.5; nan]%float], Ok (TypedRef 1)).
Proof.
  exact (toTypedArray_fast_path (byte_platform true)
           [Int32Array [4]; Float32Array [1.5; nan]%float] 1 (Float32Array [1.5; nan]%float)
           (Some "float32") eq_refl eq_refl (or_intror eq_refl)).
Defined.

(** With a matching buffer the store is never changed, and the only result
    other than the buffer itself is the exception of the debug validator. *)
Lemma toTypedArray_fast_path_frame (E : Env) (h : heap) (l : nat) (t : TypedArray)
    (dtype : option string) :
  h !! l = Some t ->
  matches_dtype t dtype ->
  toTypedArray E h (TypedRef l) dtype =
  (h, match (if DEBUG E then checkConversionForErrors E h (TypedRef l) dtype else None) with
      | Some e => Throw e
      | None => Ok (TypedRef l)
      end).
Proof.
  intros Hl Hmatch. unfold toTypedArray.
  change (Array_isArray (TypedRef l)) with false. cbv iota.
  unfold noConversionNeeded, instanceof_Float32Array, instanceof_Int32Array,
    instanceof_Uint8Array. rewrite Hl.
  destruct t; simpl in Hmatch; subst; try contradiction;
    now destruct (if DEBUG E then _ else _).
Qed.

(** C6.  With target type ['string'] the coercer throws, whatever the input,
    and before it looks at the input. *)
Theorem toTypedArray_string_throws (E : Env) (h : heap) (a : value) :
  toTypedArray E h a (Some "string") =
  (h, Throw (Error "Cannot convert a string[] to a TypedArray")).
Proof. reflexivity. Qed.

(** C7.  With [DEBUG] set and the validator of the specification,
    [toTypedArray([1e40], 'int32')] throws and the store is as it was: no
    buffer was allocated.  With [DEBUG] unset the validator is not called,
    whatever it is, and the call returns the new buffer of the truncating
    conversion. *)
Theorem toTypedArray_debug_validation (E : Env) (h : heap) :
  (DEBUG E = true ->
   (forall h' a dtype,
       checkConversionForErrors E h' a dtype = spec_checkConversionForErrors h' a dtype) ->
   toTypedArray E h (Array [Number 1e40]) (Some "int32") =
   (h, Throw (RangeError "value cannot be represented in the target type"))) /\
  (DEBUG E = false ->
   toTypedArray E h (Array [Number 1e40]) (Some "int32") =
   (h ++ [Int32Array [Num.ToInt32 1e40]], Ok (TypedRef (length h))) /\
   Num.ToInt32 1e40 = 0).
Proof.
  split.
  - intros Hdebug Hcheck. unfold toTypedArray. rewrite Hdebug, Hcheck. reflexivity.
  - intros Hdebug. split; [|reflexivity].
    unfold toTypedArray. rewrite Hdebug. reflexivity.
Qed.

Lemma toTypedArray_debug_validation_witness :
  toTypedArray (byte_platform true) [Uint8Array [1]] (Array [Number 1e40]) (Some "int32") =
  ([Uint8Array [1]], Throw (RangeError "value cannot be represented in the target type")) /\
  toTypedArray (byte_platform false) [Uint8Array [1]] (Array [Number 1e40]) (Some "int32") =
  ([Uint8Array [1]; Int32Array [0]], Ok (TypedRef 1)).
Proof.
  split.
  - exact (proj1 (toTypedArray_debug_validation (byte_platform true) [Uint8Array [1]])
                 eq_refl (fun _ _ _ => eq_refl)).
  - exact (proj1 (proj2 (toTypedArray_debug_validation (byte_platform false) [Uint8Array [1]])
                        eq_refl)).
Defined.

(** ** Claims about the scalar encoder and the text codec *)

(** C9.  For a target type other than ['string'], [createScalarValue] is
    [toTypedArray] on the one-element array of the value; for ['string'] it
    is [encodeString] of the value, with the default encoding. *)
Theorem createScalarValue_delegates (E : Env) (h : heap) (v : value) (dtype : option string) :
  (dtype <> Some "string" ->
   createScalarValue E h v dtype = toTypedArray E h (Array [v]) dtype) /\
  (dtype = Some "string" ->
   createScalarValue E h v dtype = encodeString E h v Undefined /\
   encodeString E h v Undefined = platform_encode E h v (Str "utf-8")).
Proof.
  unfold createScalarValue. split.
  - intros Hd. destruct dtype as [s|]; [|reflexivity]. simpl.
    destruct (String.eqb_spec s "string"); [congruence | reflexivity].
  - intros ->. split; reflexivity.
Qed.

Lemma createScalarValue_delegates_witness :
  createScalarValue (byte_platform false) [] (Number 2.5) (Some "int32") =
  ([Int32Array [2]], Ok (TypedRef 0)) /\
  createScalarValue (byte_platform false) [] (Str "hi") (Some "string") =
  ([Uint8Array [104; 105]], Ok (TypedRef 0)).
Proof.
  split.
  - refine (eq_trans (proj1 (createScalarValue_delegates (byte_platform false) [] (Number 2.5)
                               (Some "int32")) _) _); [discriminate | reflexivity].
  - refine (eq_trans (proj1 (proj2 (createScalarValue_delegates (byte_platform false) []
                                      (Str "hi") (Some "string")) eq_refl)) _).
    reflexivity.
Defined.

Lemma resolved_encoding_eq (encoding : value) :
  or_else (default_param encoding (Str "utf-8")) (Str "utf-8") = resolved_encoding encoding.
Proof. now destruct encoding. Qed.

(** C8.  Both functions hand the platform the encoding they were given, or
    ['utf-8'] if that is falsy; so a text that the platform encodes, under an
    encoding that it round-trips, is the result of decoding its encoding, and
    a call with a falsy encoding is the call with ['utf-8']. *)
Theorem text_codec_round_trip (E : Env) (h : heap) (s encoding : value) :
  platform_round_trip E (resolved_encoding encoding) ->
  valid_text E h s (resolved_encoding encoding) ->
  (exists h' bytes,
      encodeString E h s encoding = (h', Ok bytes) /\
      decodeString E h' bytes encoding = Ok s) /\
  (ToBoolean encoding = false ->
   encodeString E h s encoding = encodeString E h s (Str "utf-8") /\
   forall bytes, decodeString E h bytes encoding = decodeString E h bytes (Str "utf-8")).
Proof.
  intros Hround (h' & bytes & Henc). unfold encodeString, decodeString.
  rewrite !resolved_encoding_eq. split.
  - exists h', bytes. split; [exact Henc | exact (Hround _ _ _ _ Henc)].
  - intros Hfalsy. unfold resolved_encoding. rewrite Hfalsy. simpl. auto.
Qed.

Lemma string_of_bytes_of_string (s : string) : string_of_bytes (bytes_of_string s) = s.
Proof.
  unfold string_of_bytes, bytes_of_string. rewrite <- list_fmap_compose.
  rewrite <- (string_of_list_ascii_of_string s) at 2. f_equal.
  rewrite <- (list_fmap_id (list_ascii_of_string s)) at 2.
  apply list_fmap_ext. intros _ c _. simpl.
  now rewrite Nat2Z.id, ascii_nat_embedding.
Qed.

Lemma byte_platform_round_trip (debug : bool) :
  platform_round_trip (byte_platform debug) (Str "utf-8").
Proof.
  intros h s h' bytes. simpl. destruct s; try discriminate.
  intros [= <- <-]. rewrite list_lookup_middle by reflexivity.
  now rewrite string_of_bytes_of_string.
Qed.

Lemma text_codec_round_trip_witness :
  (exists h' bytes,
      encodeString (byte_platform false) [] (Str "tensor") (Str "") = (h', Ok bytes) /\
      decodeString (byte_platform false) h' bytes (Str "") = Ok (Str "tensor")) /\
  (ToBoolean (Str "") = false ->
   encodeString (byte_platform false) [] (Str "tensor") (Str "") =
   encodeString (byte_platform false) [] (Str "tensor") (Str "utf-8") /\
   forall bytes,
     decodeString (byte_platform false) [] bytes (Str "") =
     decodeString (byte_platform false) [] bytes (Str "utf-8")).
Proof.
  apply (text_codec_round_trip (byte_platform false) [] (Str "tensor") (Str "")).
  - exact (byte_platform_round_trip false).
  - exists [Uint8Array (bytes_of_string "tensor")], (TypedRef 0). reflexivity.
Defined.

(** * Further properties *)

(** ** flatten on every value *)

Section FlattenMore.
Variable h : heap.
Variable skipTypedArray : bool.

Lemma flatten_of_leaf (v : value) :
  is_leaf skipTypedArray v = true -> flatten h v None skipTypedArray = [v].
Proof. destruct v; try discriminate; try reflexivity. simpl. now intros ->. Qed.

(** What holds of every property and of [undefined] holds of [obj[key]]. *)
Lemma prop_get_Forall (P : value -> Prop) (props : list (string * value)) (key : string) :
  Forall (fun kv => P kv.2) props -> P Undefined -> P (prop_get props key).
Proof.
  intros Hprops HU. rewrite prop_get_lookup.
  destruct (with_prop key Some None props) as [v|] eqn:Hv; [|exact HU].
  apply with_prop_elem in Hv. rewrite Forall_forall in Hprops. exact (Hprops _ Hv).
Qed.

Lemma flatten_Forall_leaf (v : value) :
  Forall (fun x => is_leaf skipTypedArray x = true) (flatten h v None skipTypedArray).
Proof.
  induction v as [| |b|x|s|id|elems IH|l|props IH] using value_nested_ind;
    try (repeat constructor).
  - rewrite flatten_array_concat. apply Forall_concat, Forall_fmap.
    exact IH.
  - simpl. destruct skipTypedArray eqn:Hskip; [repeat constructor|].
    rewrite (foldl_append (fun result x => result ++ [x])) by auto. simpl.
    unfold typed_values. destruct (h !! l) as [t|]; [|constructor].
    induction (typed_numbers t) as [|x xs IHxs]; simpl; constructor; auto.
  - rewrite flatten_object_concat. apply Forall_concat, Forall_fmap, Forall_forall.
    intros i _.
    apply (prop_get_Forall
             (fun w => Forall (fun x => is_leaf skipTypedArray x = true)
                              (flatten h w None skipTypedArray))
             props (index_key i) IH).
    repeat constructor.
Qed.

Lemma flatten_of_leaves (l : list value) :
  Forall (fun x => is_leaf skipTypedArray x = true) l ->
  flatten h (Array l) None skipTypedArray = l.
Proof.
  intros Hl. rewrite flatten_array_concat.
  induction Hl as [|x l Hx _ IH]; [reflexivity|].
  rewrite fmap_cons. cbn [concat]. now rewrite (flatten_of_leaf x Hx), IH.
Qed.

Lemma concat_fmap_concat {A B : Type} (f : A -> list B) (ls : list (list A)) :
  concat (f <$> concat ls) = concat ((fun l => concat (f <$> l)) <$> ls).
Proof.
  induction ls as [|l ls IH]; simpl; [reflexivity|].
  now rewrite fmap_app, concat_app, IH.
Qed.

End FlattenMore.

(** X1.  Whatever the value, [flatten] returns the entries that [result]
    held, in their order, followed by what it returns for an empty result. *)
Theorem flatten_keeps_result (h : heap) (v : value) (result : list value)
    (skipTypedArray : bool) :
  flatten h v (Some result) skipTypedArray = result ++ flatten h v None skipTypedArray /\
  take (length result) (flatten h v (Some result) skipTypedArray) = result.
Proof.
  assert (H : flatten h v (Some result) skipTypedArray =
              result ++ flatten h v None skipTypedArray)
    by apply (flatten_append h skipTypedArray v (Some result)).
  split; [exact H|]. rewrite H. apply take_app_length.
Qed.

(** X2.  The output of [flatten] is flat: it holds no array and no object,
    and no typed array either unless typed arrays are skipped. *)
Theorem flatten_output_flat (h : heap) (v x : value) (skipTypedArray : bool) :
  x ∈ flatten h v None skipTypedArray ->
  match x with
  | Array _ | Object _ => False
  | TypedRef _ => skipTypedArray = true
  | _ => True
  end.
Proof.
  intros Hx. pose proof (flatten_Forall_leaf h skipTypedArray v) as Hall.
  rewrite Forall_forall in Hall. specialize (Hall x Hx).
  destruct x; simpl in Hall; try discriminate; auto.
Qed.

Lemma flatten_output_flat_witness :
  match Str "y" with
  | Array _ | Object _ => False
  | TypedRef _ => false = true
  | _ => True
  end.
Proof.
  apply (flatten_output_flat [] (Object [("1", Array [Str "y"])]) (Str "y") false).
  vm_compute. right. left.
Defined.

(** X3.  Flattening is idempotent: the output, taken as an array, flattens
    to itself. *)
Theorem flatten_idempotent (h : heap) (v : value) (skipTypedArray : bool) :
  flatten h (Array (flatten h v None skipTypedArray)) None skipTypedArray =
  flatten h v None skipTypedArray.
Proof. apply flatten_of_leaves, flatten_Forall_leaf. Qed.

(** X4.  [flatten] of an array is the concatenation of [flatten] of its
    elements: it distributes over the concatenation of arrays, and an array
    of one element flattens as the element does. *)
Theorem flatten_array_app (h : heap) (xs ys : list value) (v : value) (skipTypedArray : bool) :
  flatten h (Array (xs ++ ys)) None skipTypedArray =
    flatten h (Array xs) None skipTypedArray ++ flatten h (Array ys) None skipTypedArray /\
  flatten h (Array [v]) None skipTypedArray = flatten h v None skipTypedArray /\
  flatten h (Array []) None skipTypedArray = [].
Proof.
  split; [|split; [|reflexivity]].
  - now rewrite !flatten_array_concat, fmap_app, concat_app.
  - rewrite flatten_array_concat. simpl. apply app_nil_r.
Qed.

(** X5.  Skipping typed arrays and then flattening each entry without
    skipping gives what flattening without skipping gives. *)
Theorem flatten_skip_then_expand (h : heap) (v : value) :
  flatten h v None false =
  concat ((fun x => flatten h x None false) <$> flatten h v None true).
Proof.
  induction v as [| |b|x|s|id|elems IH|l|props IH] using value_nested_ind;
    try reflexivity.
  - rewrite !flatten_array_concat, concat_fmap_concat. f_equal.
    rewrite <- list_fmap_compose. apply list_fmap_ext.
    intros i x Hx%list_elem_of_lookup_2. rewrite Forall_forall in IH. exact (IH x Hx).
  - simpl. now rewrite app_nil_r.
  - rewrite !flatten_object_concat, concat_fmap_concat.
    rewrite !maxIndex_of_matching. f_equal. rewrite <- list_fmap_compose.
    apply list_fmap_ext. intros _ i _. simpl.
    apply (prop_get_Forall
             (fun w => flatten h w None false =
                       concat ((fun x => flatten h x None false) <$> flatten h w None true))
             props (index_key i) IH).
    reflexivity.
Qed.

(** ** Array-like objects *)

(** X6.  An object without any key that matches the pattern (the empty
    object among them) contributes nothing: [result] is returned as it is. *)
Theorem flatten_object_without_indices (h : heap) (props : list (string * value))
    (result : option (list value)) (skipTypedArray : bool) :
  Forall (fun key => canonical_index key = false) (Object_keys props) ->
  flatten h (Object props) result skipTypedArray = default [] result.
Proof.
  intros Hkeys. rewrite flatten_object_eq, maxIndex_of_matching.
  assert (Hmax : max_matching_key props = -1).
  { unfold max_matching_key. induction Hkeys as [|key keys Hkey _ IH]; [reflexivity|].
    simpl. now rewrite Hkey. }
  now rewrite Hmax.
Qed.

Lemma flatten_object_without_indices_witness :
  flatten [] (Object [("length", Number 2); ("00", Str "a"); ("-0", Str "b")])
          (Some [Null]) false = [Null].
Proof.
  apply (flatten_object_without_indices []
           [("length", Number 2); ("00", Str "a"); ("-0", Str "b")] (Some [Null]) false).
  repeat constructor.
Defined.

Lemma index_key_inj (i j : Z) : 0 <= i -> 0 <= j -> index_key i = index_key j -> i = j.
Proof.
  intros Hi Hj Heq. rewrite <- (Number_of_index_key i Hi), <- (Number_of_index_key j Hj).
  now rewrite Heq.
Qed.

(** Reading index [i] of the object that holds a list from index [k] on. *)
Lemma with_prop_imap (vs : list value) (k i : nat) :
  (k <= i)%nat ->
  with_prop (index_key (Z.of_nat i)) Some None
            (imap (fun j v => (index_key (Z.of_nat (k + j)), v)) vs) =
  vs !! (i - k)%nat.
Proof.
  revert k. induction vs as [|x vs IH]; intros k Hk; [reflexivity|].
  cbn [imap with_prop]. rewrite Nat.add_0_r.
  destruct (String.eqb_spec (index_key (Z.of_nat k)) (index_key (Z.of_nat i))) as [Heq|Hne].
  - apply index_key_inj in Heq; [|lia..].
    replace (i - k)%nat with 0%nat by lia. reflexivity.
  - assert (k < i)%nat by (destruct (decide (k = i)); [subst; congruence | lia]).
    replace (i - k)%nat with (S (i - S k)) by lia. simpl.
    rewrite <- (IH (S k)) by lia. f_equal. apply imap_ext.
    intros j y _. simpl. do 3 f_equal. lia.
Qed.

Lemma prop_get_array_like (vs : list value) (i : nat) :
  prop_get (array_like vs) (index_key (Z.of_nat i)) = default Undefined (vs !! i).
Proof.
  rewrite prop_get_lookup. unfold array_like.
  pose proof (with_prop_imap vs 0 i ltac:(lia)) as H. cbn [Nat.add] in H.
  now rewrite H, Nat.sub_0_r.
Qed.

Lemma maxIndex_of_array_like (vs : list value) :
  maxIndex_of (Object_keys (array_like vs)) = Z.of_nat (length vs) - 1.
Proof.
  unfold maxIndex_of, Object_keys, array_like.
  induction vs as [|v vs IH] using rev_ind; [reflexivity|].
  rewrite imap_app, fmap_app, foldl_app, IH. cbn [imap fmap list_fmap foldl fst].
  rewrite test_INDEX_KEY, index_key_canonical, Number_of_index_key by lia.
  rewrite length_app. simpl. lia.
Qed.

(** X7.  The array-like object that holds the elements of a list under the
    keys [0], [1], ... flattens as the array of these elements does. *)
Theorem flatten_array_like (h : heap) (vs : list value) (result : option (list value))
    (skipTypedArray : bool) :
  flatten h (Object (array_like vs)) result skipTypedArray =
  flatten h (Array vs) result skipTypedArray.
Proof.
  rewrite flatten_object_eq, maxIndex_of_array_like.
  rewrite (flatten_unfold h (Array vs)). cbv zeta. cbn [typeof isPromise eq_null isTypedArray
    Array_isArray String.eqb Ascii.eqb Bool.eqb orb andb length_of elements].
  replace (Z.of_nat (length vs) - 1 + 1) with (Z.of_nat (length vs)) by lia.
  unfold seqZ. rewrite Nat2Z.id, foldl_fmap.
  generalize (default [] result).
  induction (seq 0 (length vs)) as [|i l IH]; intros r; [reflexivity|].
  cbn [foldl]. rewrite IH. f_equal.
  rewrite Z.add_0_r, prop_get_array_like. reflexivity.
Qed.

(** X8.  When every property holds a scalar, the output has one entry for
    each index up to the greatest matching key, however few properties
    there are. *)
Theorem flatten_object_length (h : heap) (props : list (string * value))
    (skipTypedArray : bool) :
  Forall (fun kv => is_leaf skipTypedArray kv.2 = true) props ->
  length (flatten h (Object props) None skipTypedArray) =
  Z.to_nat (max_matching_key props + 1).
Proof.
  intros Hleaf. rewrite flatten_object_concat, maxIndex_of_matching.
  rewrite <- (length_seqZ 0 (max_matching_key props + 1)).
  induction (seqZ 0 (max_matching_key props + 1)) as [|i l IH]; [reflexivity|].
  rewrite fmap_cons. cbn [concat]. rewrite length_app, IH. cbn [length].
  assert (Hone : length (flatten h (prop_get props (index_key i)) None skipTypedArray)
                 = 1%nat).
  { apply (prop_get_Forall (fun w => length (flatten h w None skipTypedArray) = 1%nat)
                           props (index_key i)); [|reflexivity].
    eapply Forall_impl; [exact Hleaf|]. intros [k v] Hv. simpl in *.
    now rewrite flatten_of_leaf. }
  now rewrite Hone.
Qed.

Lemma flatten_object_length_witness :
  length (flatten [] (Object [("7", Str "x"); ("note", Null)]) None false) = 8%nat.
Proof.
  refine (eq_trans (flatten_object_length [] [("7", Str "x"); ("note", Null)] false _) _).
  - repeat constructor.
  - reflexivity.
Defined.

Lemma max_key_perm (keys keys' : list string) :
  keys ≡ₚ keys' ->
  foldr Z.max (-1) (Number_of_key <$> List.filter canonical_index keys) =
  foldr Z.max (-1) (Number_of_key <$> List.filter canonical_index keys').
Proof.
  induction 1 as [|k l l' _ IH|k1 k2 l|l1 l2 l3 _ IH1 _ IH2].
  - reflexivity.
  - cbn [List.filter]. destruct (canonical_index k); [|exact IH].
    rewrite !fmap_cons. cbn [foldr]. now rewrite IH.
  - cbn [List.filter]. destruct (canonical_index k1), (canonical_index k2);
      rewrite ?fmap_cons; cbn [foldr]; try reflexivity.
    rewrite !Z.max_assoc. f_equal. apply Z.max_comm.
  - now rewrite IH1.
Qed.

Lemma max_matching_key_perm (props props' : list (string * value)) :
  props ≡ₚ props' -> max_matching_key props = max_matching_key props'.
Proof.
  intros Hperm. unfold max_matching_key, Object_keys.
  apply max_key_perm. now apply fmap_Permutation.
Qed.

Lemma with_prop_perm (key : string) (props props' : list (string * value)) :
  props ≡ₚ props' -> NoDup (Object_keys props) ->
  with_prop key Some None props = with_prop key Some None props'.
Proof.
  unfold Object_keys.
  induction 1 as [|[k v] l l' _ IH|[k1 v1] [k2 v2] l|l1 l2 l3 H12 IH1 _ IH2];
    intros Hnd; simpl.
  - reflexivity.
  - destruct (String.eqb k key); [reflexivity|]. apply IH. now inversion Hnd.
  - destruct (String.eqb_spec k1 key) as [->|], (String.eqb_spec k2 key) as [->|];
      try reflexivity.
    exfalso. inversion Hnd as [|? ? Hin _]; subst. apply Hin. now left.
  - rewrite IH1 by exact Hnd. apply IH2.
    assert (Hp : l2.*1 ≡ₚ l1.*1) by (symmetry; now apply fmap_Permutation).
    now rewrite Hp.
Qed.

(** X9.  The order in which the object lists its properties does not
    matter: objects with the same properties, each key once, flatten alike. *)
Theorem flatten_object_order (h : heap) (props props' : list (string * value))
    (result : option (list value)) (skipTypedArray : bool) :
  props ≡ₚ props' -> NoDup (Object_keys props) ->
  flatten h (Object props) result skipTypedArray =
  flatten h (Object props') result skipTypedArray.
Proof.
  intros Hperm Hnd.
  rewrite !flatten_object_eq, !maxIndex_of_matching, (max_matching_key_perm _ _ Hperm).
  generalize (default [] result).
  induction (seqZ 0 (max_matching_key props' + 1)) as [|i l IH]; intros r; [reflexivity|].
  cbn [foldl]. rewrite IH. f_equal.
  now rewrite !prop_get_lookup, (with_prop_perm _ _ _ Hperm Hnd).
Qed.

Lemma flatten_object_order_witness :
  flatten [] (Object [("2", Str "c"); ("x", Null); ("0", Str "a")]) None false =
  flatten [] (Object [("0", Str "a"); ("2", Str "c"); ("x", Null)]) None false.
Proof.
  apply (flatten_object_order []).
  - change ([("2", Str "c"); ("x", Null); ("0", Str "a")] ≡ₚ
            [("0", Str "a")] ++ [("2", Str "c"); ("x", Null)]).
    symmetry. apply Permutation_app_comm.
  - apply (bool_decide_unpack _). vm_compute. exact I.
Defined.

(** ** toTypedArray on arrays and typed arrays *)

Section CoercionMore.
Variable E : Env.
Variable h : heap.

(** The loop of the ['bool'] branch writes to the new buffer only. *)
Lemma fill_bool_frame (a : value) (n : nat) (data : list Z) :
  exists data', fill_bool E a (length h) n (h ++ [Uint8Array data]) =
                h ++ [Uint8Array data'].
Proof.
  unfold fill_bool. induction n as [|n [data' IH]]; [now exists data|].
  rewrite seq_S, foldl_app, IH. cbn [foldl].
  destruct (Num.not_strict_zero _); [|now exists data'].
  rewrite store_byte_last. now eexists.
Qed.

(** The loop on a value whose elements do not change while the new buffer
    is written. *)
Lemma fill_bool_stable (a : value) (vs : list value) (k : nat) :
  (forall data i, index (h ++ [Uint8Array data]) a i = default Undefined (vs !! i)) ->
  (k <= length vs)%nat ->
  fill_bool E a (length h) k (h ++ [Uint8Array (replicate (length vs) 0)]) =
  h ++ [Uint8Array (((fun v => bool_byte (ToNumber E v)) <$> take k vs) ++
                    replicate (length vs - k) 0)].
Proof.
  intros Hidx. unfold fill_bool. induction k as [|k IH]; intros Hk.
  - simpl. now rewrite Nat.sub_0_r.
  - rewrite seq_S, foldl_app, IH by lia. cbn [foldl]. rewrite Nat.add_0_l, Hidx.
    destruct (lookup_lt_is_Some_2 vs k ltac:(lia)) as [v Hv].
    rewrite Hv, (take_S_r _ _ _ Hv), fmap_app, <- app_assoc.
    replace (length vs - k)%nat with (S (length vs - S k)) by lia.
    cbn [fmap list_fmap replicate app default from_option id].
    destruct (Num.not_strict_zero (Num.Math_round (ToNumber E v))) eqn:Hnz.
    + replace (bool_byte (ToNumber E v)) with 1 by (unfold bool_byte; now rewrite Hnz).
      rewrite store_byte_last. do 3 f_equal.
      rewrite insert_app_r_alt; rewrite length_fmap, length_take; [|lia].
      now replace (k - k `min` length vs)%nat with 0%nat by lia.
    + replace (bool_byte (ToNumber E v)) with 0 by (unfold bool_byte; now rewrite Hnz).
      reflexivity.
Qed.

Lemma typed_values_app (l : nat) (t : TypedArray) (extra : heap) :
  h !! l = Some t -> typed_values (h ++ extra) l = typed_values h l.
Proof.
  intros Hl. unfold typed_values. now rewrite (lookup_app_l_Some _ _ _ _ Hl), Hl.
Qed.

Lemma fill_bool_typed (l : nat) (t : TypedArray) :
  h !! l = Some t ->
  let vs := typed_values h l in
  fill_bool E (TypedRef l) (length h) (length vs)
            (h ++ [Uint8Array (replicate (length vs) 0)]) =
  h ++ [Uint8Array (bool_byte <$> typed_numbers t)].
Proof.
  intros Hl vs. rewrite (fill_bool_stable (TypedRef l) vs) by
    (try lia; intros data i; unfold index, elements;
     now rewrite (typed_values_app l t _ Hl)).
  rewrite firstn_all, Nat.sub_diag, app_nil_r. subst vs. unfold typed_values.
  rewrite Hl, <- list_fmap_compose. reflexivity.
Qed.

Lemma noConversionNeeded_matches (l : nat) (t : TypedArray) (dtype : option string) :
  h !! l = Some t ->
  noConversionNeeded h (TypedRef l) dtype = true <-> matches_dtype t dtype.
Proof.
  intros Hl. unfold noConversionNeeded, instanceof_Float32Array, instanceof_Int32Array,
    instanceof_Uint8Array. rewrite Hl.
  destruct t; simpl; rewrite ?orb_false_r;
    try (destruct dtype as [s|]; simpl; [rewrite String.eqb_eq|]; split; congruence).
  split; [discriminate | contradiction].
Qed.

Lemma converted_not_string (dtype : option string) (xs : list float) (t : TypedArray) :
  converted dtype xs = Some t -> dtype_is dtype "string" = false.
Proof.
  destruct (dtype_is dtype "string") eqn:Hs; [|reflexivity].
  destruct dtype as [s|]; [|discriminate]. apply String.eqb_eq in Hs as ->. discriminate.
Qed.

Lemma converted_length (dtype : option string) (xs : list float) (t : TypedArray) :
  converted dtype xs = Some t -> buffer_length t = length xs.
Proof.
  unfold converted.
  destruct (is_nullish dtype || dtype_is dtype "float32" || dtype_is dtype "complex64");
    [|destruct (dtype_is dtype "int32"); [|destruct (dtype_is dtype "bool")]];
    intros [= <-]; simpl; try apply length_fmap.
Qed.

(** A typed array of another element type is converted into a new one. *)
Lemma toTypedArray_typed (l : nat) (t t' : TypedArray) (dtype : option string) :
  h !! l = Some t ->
  noConversionNeeded h (TypedRef l) dtype = false ->
  validation_passes E h (TypedRef l) dtype ->
  converted dtype (typed_numbers t) = Some t' ->
  toTypedArray E h (TypedRef l) dtype = (h ++ [t'], Ok (TypedRef (length h))).
Proof.
  intros Hl Hno Hval Hconv. unfold toTypedArray.
  rewrite (converted_not_string _ _ _ Hconv).
  change (Array_isArray (TypedRef l)) with false. cbv iota.
  rewrite (validation_passes_eq _ _ _ _ Hval), Hno.
  unfold converted in Hconv. unfold new_Float32Array, new_Int32Array, elements, alloc.
  destruct (is_nullish dtype || dtype_is dtype "float32" || dtype_is dtype "complex64").
  { injection Hconv as <-. unfold typed_values. rewrite Hl, <- list_fmap_compose.
    reflexivity. }
  destruct (dtype_is dtype "int32").
  { injection Hconv as <-. unfold typed_values. rewrite Hl, <- list_fmap_compose.
    reflexivity. }
  destruct (dtype_is dtype "bool"); [|discriminate].
  injection Hconv as <-. now rewrite (fill_bool_typed l t Hl).
Qed.

End CoercionMore.

(** X10.  From an array and one of the numeric target types, a call that is
    not stopped by validation returns a new buffer at the next location; the
    buffer has one element for each leaf of the array, and every buffer that
    was in the store is still there, as it was. *)
Theorem toTypedArray_array_new_buffer (E : Env) (h : heap) (elems : list value)
    (dtype : option string) (t : TypedArray) :
  let leaves := flatten h (Array elems) None false in
  validation_passes E h (Array leaves) dtype ->
  converted dtype (ToNumber E <$> leaves) = Some t ->
  toTypedArray E h (Array elems) dtype = (h ++ [t], Ok (TypedRef (length h))) /\
  buffer_length t = length leaves /\
  h !! length h = None /\
  (forall l t0, h !! l = Some t0 -> (h ++ [t]) !! l = Some t0).
Proof.
  intros leaves Hval Hconv. split; [|split; [|split]].
  - rewrite toTypedArray_array; fold leaves;
      [|exact (converted_not_string _ _ _ Hconv)|exact Hval].
    unfold converted in Hconv.
    destruct (is_nullish dtype || dtype_is dtype "float32" || dtype_is dtype "complex64");
      [|destruct (dtype_is dtype "int32"); [|destruct (dtype_is dtype "bool")]];
      try discriminate; injection Hconv as <-; now rewrite <- list_fmap_compose.
  - now rewrite (converted_length _ _ _ Hconv), length_fmap.
  - now apply lookup_ge_None.
  - intros l t0 Hl. now apply lookup_app_l_Some.
Qed.

Lemma toTypedArray_array_new_buffer_witness :
  toTypedArray (byte_platform true) [Uint8Array [7]]
               (Array [Array [Number 0.1; Null]; Bool true; Undefined]) None =
  ([Uint8Array [7]; Float32Array [0.10000000149011612; 0; 1; nan]%float],
   Ok (TypedRef 1)).
Proof.
  exact (proj1 (toTypedArray_array_new_buffer (byte_platform true) [Uint8Array [7]]
                  [Array [Number 0.1; Null]; Bool true; Undefined] None
                  (Float32Array [0.10000000149011612; 0; 1; nan]%float)
                  (or_intror eq_refl) eq_refl)).
Defined.

(** X11.  A target type that is none of ['string'], ['float32'],
    ['complex64'], ['int32'] and ['bool'] makes the call throw
    [Unknown data type ...] for every input, once validation has let it
    pass; the store is as it was. *)
Theorem toTypedArray_unknown_dtype (E : Env) (h : heap) (a : value) (s : string) :
  s <> "string" -> s <> "float32" -> s <> "complex64" -> s <> "int32" -> s <> "bool" ->
  validation_passes E h (if Array_isArray a then Array (flatten h a None false) else a)
                    (Some s) ->
  toTypedArray E h a (Some s) = (h, Throw (Error ("Unknown data type " +:+ s))).
Proof.
  intros H1 H2 H3 H4 H5 Hval. unfold toTypedArray, noConversionNeeded. simpl dtype_is.
  apply String.eqb_neq in H1, H2, H3, H4, H5. rewrite H1, H2, H3, H4, H5.
  rewrite (validation_passes_eq _ _ _ _ Hval). rewrite !andb_false_r. reflexivity.
Qed.

Lemma toTypedArray_unknown_dtype_witness :
  toTypedArray (byte_platform true) [] (Number 3) (Some "float64") =
  ([], Throw (Error "Unknown data type float64")).
Proof.
  apply (toTypedArray_unknown_dtype (byte_platform true) [] (Number 3) "float64");
    try discriminate.
  right. reflexivity.
Defined.

(** X12.  On an array or a typed array the call adds at most one buffer to
    the store and changes none that was there; when it throws, the store is
    exactly as it was. *)
Theorem toTypedArray_store_frame (E : Env) (h h' : heap) (a : value)
    (dtype : option string) (r : outcome value) :
  is_sequence a = true ->
  toTypedArray E h a dtype = (h', r) ->
  (h' = h \/ exists t, h' = h ++ [t]) /\
  (forall e, r = Throw e -> h' = h) /\
  (forall l t0, h !! l = Some t0 -> h' !! l = Some t0).
Proof.
  intros Hseq Hcall.
  assert (Hcases : (h' = h) \/ (exists t v, h' = h ++ [t] /\ r = Ok v)).
  { revert Hcall. unfold toTypedArray.
    destruct (dtype_is dtype "string"); [intros [= <- <-]; now left|].
    set (a' := if Array_isArray a then Array (flatten h a None false) else a).
    assert (Hel : exists vs, elements h a' = Some vs).
    { subst a'. destruct a; try discriminate; simpl; eauto. }
    destruct Hel as [vs Hel].
    destruct (if DEBUG E then _ else _); [intros [= <- <-]; now left|].
    destruct (noConversionNeeded h a' dtype); [intros [= <- <-]; now left|].
    unfold new_Float32Array, new_Int32Array, alloc. rewrite Hel.
    destruct (is_nullish dtype || dtype_is dtype "float32" || dtype_is dtype "complex64");
      [intros [= <- <-]; right; eauto|].
    destruct (dtype_is dtype "int32"); [intros [= <- <-]; right; eauto|].
    destruct (dtype_is dtype "bool"); [|intros [= <- <-]; now left].
    destruct (fill_bool_frame E h a' (length vs) (replicate (length vs) 0)) as [d Hd].
    rewrite Hd. intros [= <- <-]. right; eauto. }
  split; [|split].
  - destruct Hcases as [->|(t & v & -> & _)]; eauto.
  - intros e ->. destruct Hcases as [->|(t & v & _ & [=])]. reflexivity.
  - intros l t0 Hl. destruct Hcases as [->|(t & v & -> & _)]; [exact Hl|].
    now apply lookup_app_l_Some.
Qed.

Lemma toTypedArray_store_frame_witness :
  ([Int32Array [5]; Uint8Array [1; 0]] = [Int32Array [5]] \/
   exists t, [Int32Array [5]; Uint8Array [1; 0]] = [Int32Array [5]] ++ [t]) /\
  (forall e, Ok (TypedRef 1) = Throw e -> [Int32Array [5]; Uint8Array [1; 0]] = [Int32Array [5]]) /\
  (forall l t0, [Int32Array [5]] !! l = Some t0 ->
                [Int32Array [5]; Uint8Array [1; 0]] !! l = Some t0).
Proof.
  apply (toTypedArray_store_frame (byte_platform false) [Int32Array [5]]
           [Int32Array [5]; Uint8Array [1; 0]] (Array [Number 0.9; Number 0.2])
           (Some "bool") (Ok (TypedRef 1))); reflexivity.
Defined.

(** X13.  Nesting does not matter to the coercion: an array is coerced as
    the array of its leaves is. *)
Theorem toTypedArray_nesting_irrelevant (E : Env) (h : heap) (elems : list value)
    (dtype : option string) :
  toTypedArray E h (Array elems) dtype =
  toTypedArray E h (Array (flatten h (Array elems) None false)) dtype.
Proof.
  unfold toTypedArray. change (Array_isArray (Array _)) with true. cbv iota.
  now rewrite (flatten_of_leaves h false _ (flatten_Forall_leaf h false (Array elems))).
Qed.

(** X14.  From a typed array in the store, the call returns its argument
    exactly when the element type matches the target type; any other
    buffer that it returns is the new one. *)
Theorem toTypedArray_alias_iff_match (E : Env) (h h' : heap) (l : nat) (t : TypedArray)
    (dtype : option string) (r : value) :
  h !! l = Some t ->
  toTypedArray E h (TypedRef l) dtype = (h', Ok r) ->
  (r = TypedRef l <-> matches_dtype t dtype) /\
  (r = TypedRef l \/ r = TypedRef (length h)).
Proof.
  intros Hl. pose proof (lookup_lt_Some _ _ _ Hl) as Hlt.
  pose proof (noConversionNeeded_matches h l t dtype Hl) as Hmatch.
  unfold toTypedArray.
  destruct (dtype_is dtype "string"); [discriminate|].
  change (Array_isArray (TypedRef l)) with false. cbv iota.
  destruct (if DEBUG E then _ else _); [discriminate|].
  destruct (noConversionNeeded h (TypedRef l) dtype).
  { intros [= <- <-]. split; [|now left]. split; [intros _; now apply Hmatch | reflexivity]. }
  assert (Hnew : r = TypedRef (length h) ->
                 (r = TypedRef l <-> matches_dtype t dtype) /\
                 (r = TypedRef l \/ r = TypedRef (length h))).
  { intros ->. split; [|now right]. split.
    - intros [= Heq]. lia.
    - intros Hm. apply Hmatch in Hm. discriminate. }
  unfold new_Float32Array, new_Int32Array, elements, alloc.
  destruct (is_nullish dtype || dtype_is dtype "float32" || dtype_is dtype "complex64");
    [intros [= <- <-]; now apply Hnew|].
  destruct (dtype_is dtype "int32"); [intros [= <- <-]; now apply Hnew|].
  destruct (dtype_is dtype "bool"); [|discriminate].
  intros [= _ <-]. now apply Hnew.
Qed.

Lemma toTypedArray_alias_iff_match_witness :
  (TypedRef 1 = TypedRef 0 <-> matches_dtype (Float32Array [2.5]%float) (Some "complex64")) /\
  (TypedRef 1 = TypedRef 0 \/ TypedRef 1 = TypedRef (length [Float32Array [2.5]%float])).
Proof.
  apply (toTypedArray_alias_iff_match (byte_platform false) [Float32Array [2.5]%float]
           [Float32Array [2.5]%float; Float32Array [2.5]%float] 0 (Float32Array [2.5]%float)
           (Some "complex64") (TypedRef 1)); reflexivity.
Defined.

(** X15.  A typed array whose element type is not the target type is
    converted, element by element, into a new buffer at the next location;
    the argument stays in the store as it was. *)
Theorem toTypedArray_typed_conversion (E : Env) (h : heap) (l : nat) (t t' : TypedArray)
    (dtype : option string) :
  h !! l = Some t ->
  ~ matches_dtype t dtype ->
  validation_passes E h (TypedRef l) dtype ->
  converted dtype (typed_numbers t) = Some t' ->
  toTypedArray E h (TypedRef l) dtype = (h ++ [t'], Ok (TypedRef (length h))) /\
  (h ++ [t']) !! l = Some t /\
  buffer_length t' = buffer_length t.
Proof.
  intros Hl Hno Hval Hconv. split; [|split].
  - apply (toTypedArray_typed E h l t t' dtype Hl); [|exact Hval|exact Hconv].
    destruct (noConversionNeeded h (TypedRef l) dtype) eqn:Hn; [|reflexivity].
    exfalso. now apply Hno, (noConversionNeeded_matches h l t dtype Hl).
  - now apply lookup_app_l_Some.
  - rewrite (converted_length _ _ _ Hconv). destruct t; simpl; now rewrite ?length_fmap.
Qed.

Lemma toTypedArray_typed_conversion_witness :
  toTypedArray (byte_platform true) [Uint8ClampedArray [0; 3; 255]] (TypedRef 0) (Some "bool") =
  ([Uint8ClampedArray [0; 3; 255]; Uint8Array [0; 1; 1]], Ok (TypedRef 1)).
Proof.
  refine (proj1 (toTypedArray_typed_conversion (byte_platform true)
                   [Uint8ClampedArray [0; 3; 255]] 0 (Uint8ClampedArray [0; 3; 255])
                   (Uint8Array [0; 1; 1]) (Some "bool") eq_refl _ (or_intror eq_refl) eq_refl)).
  intros [].
Defined.

(** ** The scalar encoder and the text codec *)

(** X16.  For a scalar value and a numeric target type, [createScalarValue]
    returns a new buffer of exactly one element, the converted value. *)
Theorem createScalarValue_scalar (E : Env) (h : heap) (v : value) (dtype : option string)
    (t : TypedArray) :
  is_leaf false v = true ->
  validation_passes E h (Array [v]) dtype ->
  converted dtype [ToNumber E v] = Some t ->
  createScalarValue E h v dtype = (h ++ [t], Ok (TypedRef (length h))) /\
  buffer_length t = 1%nat.
Proof.
  intros Hleaf Hval Hconv.
  assert (Hflat : flatten h (Array [v]) None false = [v])
    by (apply flatten_of_leaves; repeat constructor; exact Hleaf).
  split; [|exact (converted_length _ _ _ Hconv)].
  unfold createScalarValue. rewrite (converted_not_string _ _ _ Hconv).
  rewrite toTypedArray_array; rewrite ?Hflat;
    [|exact (converted_not_string _ _ _ Hconv)|exact Hval].
  unfold converted in Hconv.
  destruct (is_nullish dtype || dtype_is dtype "float32" || dtype_is dtype "complex64");
    [|destruct (dtype_is dtype "int32"); [|destruct (dtype_is dtype "bool")]];
    try discriminate; now injection Hconv as <-.
Qed.

Lemma createScalarValue_scalar_witness :
  createScalarValue (byte_platform true) [] (Bool true) (Some "float32") =
  ([Float32Array [1]%float], Ok (TypedRef 0)).
Proof.
  exact (proj1 (createScalarValue_scalar (byte_platform true) [] (Bool true) (Some "float32")
                  (Float32Array [1]%float) eq_refl (or_intror eq_refl) eq_refl)).
Defined.

(** X17.  Wrapping adds no level: for a target type other than ['string'],
    [createScalarValue] of an array is [toTypedArray] of that array. *)
Theorem createScalarValue_array (E : Env) (h : heap) (elems : list value)
    (dtype : option string) :
  dtype <> Some "string" ->
  createScalarValue E h (Array elems) dtype = toTypedArray E h (Array elems) dtype.
Proof.
  intros Hd. unfold createScalarValue.
  assert (Hs : dtype_is dtype "string" = false).
  { destruct dtype as [s|]; [|reflexivity]. simpl.
    destruct (String.eqb_spec s "string"); [congruence | reflexivity]. }
  rewrite Hs. unfold toTypedArray. rewrite Hs.
  change (Array_isArray (Array _)) with true. cbv iota.
  assert (Hflat : flatten h (Array [Array elems]) None false =
                  flatten h (Array elems) None false)
    by (rewrite (flatten_array_concat h false [Array elems]); simpl; apply app_nil_r).
  now rewrite Hflat.
Qed.

Lemma createScalarValue_array_witness :
  createScalarValue (byte_platform false) [] (Array [Number 1; Array [Number 2]]) (Some "int32") =
  ([Int32Array [1; 2]], Ok (TypedRef 0)).
Proof.
  refine (eq_trans (createScalarValue_array (byte_platform false) []
                      [Number 1; Array [Number 2]] (Some "int32") _) _);
    [discriminate | reflexivity].
Defined.

(** X18.  The platform never receives a falsy encoding from the codec: both
    functions hand it the same truthy encoding, which is the one they were
    given whenever that one is truthy. *)
Theorem codec_encoding_truthy (E : Env) (h : heap) (s bytes encoding : value) :
  exists enc,
    ToBoolean enc = true /\
    encodeString E h s encoding = platform_encode E h s enc /\
    decodeString E h bytes encoding = platform_decode E h bytes enc /\
    (ToBoolean encoding = true -> enc = encoding).
Proof.
  exists (resolved_encoding encoding). unfold encodeString, decodeString.
  rewrite !resolved_encoding_eq. unfold resolved_encoding.
  destruct (ToBoolean encoding) eqn:Htruthy; auto.
  repeat split; auto. discriminate.
Qed.

(** ** Two more invariants *)

(** X19.  A ['bool'] buffer made from an array holds nothing but [0] and
    [1], one byte for each leaf, whatever the leaves are. *)
Theorem toTypedArray_bool_bytes (E : Env) (h : heap) (elems : list value) :
  let leaves := flatten h (Array elems) None false in
  validation_passes E h (Array leaves) (Some "bool") ->
  exists bytes,
    toTypedArray E h (Array elems) (Some "bool") =
      (h ++ [Uint8Array bytes], Ok (TypedRef (length h))) /\
    length bytes = length leaves /\
    Forall (fun b => b = 0 \/ b = 1) bytes.
Proof.
  intros leaves Hval. exists ((fun v => bool_byte (ToNumber E v)) <$> leaves).
  split; [|split].
  - now rewrite toTypedArray_array by (try reflexivity; exact Hval).
  - apply length_fmap.
  - apply Forall_fmap, Forall_forall. intros v _. simpl. unfold bool_byte.
    destruct (Num.not_strict_zero _); auto.
Qed.

Lemma toTypedArray_bool_bytes_witness :
  exists bytes,
    toTypedArray (byte_platform false) [] (Array [Number 7.5; Array [Undefined; Null]])
                 (Some "bool") =
      ([] ++ [Uint8Array bytes], Ok (TypedRef (length (@nil TypedArray)))) /\
    length bytes = 3%nat /\
    Forall (fun b => b = 0 \/ b = 1) bytes.
Proof.
  exact (toTypedArray_bool_bytes (byte_platform false) []
           [Number 7.5; Array [Undefined; Null]] (or_introl eq_refl)).
Defined.

(** X20.  When typed arrays are skipped, [flatten] does not read the store:
    the output is the same whatever the buffers hold. *)
Theorem flatten_skip_reads_no_buffer (h h' : heap) (v : value)
    (result : option (list value)) :
  flatten h v result true = flatten h' v result true.
Proof.
  rewrite (flatten_append h true v result), (flatten_append h' true v result). f_equal.
  induction v as [| |b|x|s|id|elems IH|l|props IH] using value_nested_ind;
    try reflexivity.
  - rewrite !flatten_array_concat. f_equal. apply list_fmap_ext.
    intros _ x Hx%list_elem_of_lookup_2. rewrite Forall_forall in IH. exact (IH x Hx).
  - rewrite !flatten_object_concat. f_equal. apply list_fmap_ext. intros _ i _.
    apply (prop_get_Forall (fun w => flatten h w None true = flatten h' w None true)
                           props (index_key i) IH).
    reflexivity.
Qed.
